(** * deepsource-vscode: the extension's translation and session logic

    A shallow embedding of [src/extension.ts]: the repository identity
    resolver ([getRepoAndUserName]), the diagnostic translator
    ([prepareDiagnostics]), the fetch orchestration
    ([fetchAnalysisReport], [calculateDiagnostics], the
    [extension.getAnalysisReport] command) and the presenter (the
    [onDidChangeActiveTextEditor] listener).

    External collaborators are represented by the data the extension hands
    to them or receives from them:
    - [vscode.Position], [vscode.Range] and [vscode.Diagnostic] are records;
      what their constructors check and reorder is in [Checked];
    - Node's [path] module is an interface ([PathApi]) with a POSIX
      implementation ([posix]) used for concrete runs;
    - the analysis client, the input box and git are oracles whose replies
      are inputs of a step;
    - numbers are mathematical integers ([Z]). *)

From Stdlib Require Import ZArith Ascii String List Lia.
From stdpp Require Import base option list gmap strings.

Open Scope Z_scope.
Open Scope string_scope.

(** ** Strings *)

(** [s1 +:+ s2] is string concatenation (stdpp's notation for
    [String.append]). *)

Fixpoint string_forall (p : ascii -> bool) (s : string) : bool :=
  match s with
  | EmptyString => true
  | String c s' => p c && string_forall p s'
  end.

(** ** The regular expression of [getRepoAndUserName]

    A fragment of JavaScript regular expressions large enough for
    [/([\w-]+)\/([\w-]+)\.git/]: literal characters and capturing groups
    that hold a greedy [+] over a character class. *)
Module Regex.

Inductive atom : Type :=
| Lit (c : ascii)
| CapPlus (cls : ascii -> bool).

(** The result of matching at a fixed position: the matched text and the
    captures, in group order. *)
Definition hit : Type := (string * list string)%type.

(** [greedy_plus cls k s]: consume one or more [cls] characters of [s],
    the longest run first, giving characters back one at a time until the
    continuation [k] accepts the remainder. *)
Fixpoint greedy_plus (cls : ascii -> bool) (k : string -> option hit)
    (s : string) : option (string * hit) :=
  match s with
  | EmptyString => None
  | String c s' =>
      if cls c then
        match greedy_plus cls k s' with
        | Some (g, h) => Some (String c g, h)
        | None =>
            match k s' with
            | Some h => Some (String c EmptyString, h)
            | None => None
            end
        end
      else None
  end.

(** Match the atoms [re] at the start of the subject. *)
Fixpoint match_here (re : list atom) : string -> option hit :=
  match re with
  | [] => fun _ => Some (EmptyString, [])
  | Lit c :: re' => fun s =>
      match s with
      | EmptyString => None
      | String c' s' =>
          if Ascii.eqb c c' then
            match match_here re' s' with
            | Some (w, caps) => Some (String c' w, caps)
            | None => None
            end
          else None
      end
  | CapPlus cls :: re' => fun s =>
      match greedy_plus cls (match_here re') s with
      | Some (g, (w, caps)) => Some (g +:+ w, g :: caps)
      | None => None
      end
  end.

(** The first start position, left to right, at which [re] matches. *)
Fixpoint search (re : list atom) (s : string) : option hit :=
  match match_here re s with
  | Some h => Some h
  | None =>
      match s with
      | EmptyString => None
      | String _ s' => search re s'
      end
  end.

(** [String.prototype.match] with a non-global regular expression: [null]
    or the array of the matched text followed by the captures. *)
Definition String_match (s : string) (re : list atom) : option (list string) :=
  match search re s with
  | Some (w, caps) => Some (w :: caps)
  | None => None
  end.

(** [\w] is [[A-Za-z0-9_]]. *)
Definition is_word (c : ascii) : bool :=
  let n := nat_of_ascii c in
  ((65 <=? n) && (n <=? 90) || (97 <=? n) && (n <=? 122)
   || (48 <=? n) && (n <=? 57) || (n =? 95))%nat.

(** [[\w-]] *)
Definition word_or_hyphen (c : ascii) : bool :=
  is_word c || Ascii.eqb c "-".

End Regex.

(** ** Repository identity *)

Record RepoInfo : Type := mkRepoInfo {
  ri_userName : string;
  ri_repoName : string
}.

(** [/([\w-]+)\/([\w-]+)\.git/] *)
Definition githubUserAndRepoNameRegex : list Regex.atom :=
  [Regex.CapPlus Regex.word_or_hyphen; Regex.Lit "/";
   Regex.CapPlus Regex.word_or_hyphen;
   Regex.Lit "."; Regex.Lit "g"; Regex.Lit "i"; Regex.Lit "t"].

(** [getRepoAndUserName]. The two git queries are inputs: [isRepo] is the
    answer of [checkIsRepo] and [remoteUrl] the value of
    [remote.origin.url] ([None] when the key is not set). *)
Definition getRepoAndUserName (isRepo : bool) (remoteUrl : option string)
    : option RepoInfo :=
  if negb isRepo then None
  else
    match remoteUrl with
    | None => None
    | Some url =>
        match Regex.String_match url githubUserAndRepoNameRegex with
        | Some matches =>
            if (length matches =? 3)%nat then
              match matches with
              | [_; userName; repoName] => Some (mkRepoInfo userName repoName)
              | _ => None
              end
            else None
        | None => None
        end
    end.

(** A non-empty run of [[\w-]] characters. *)
Definition is_segment (s : string) : Prop :=
  s <> "" /\ string_forall Regex.word_or_hyphen s = true.

(** The text [s] starts with [A/R.git] for segments [A] and [R]. *)
Definition starts_with_repo (s : string) (A R : string) : Prop :=
  exists post, s = A +:+ "/" +:+ R +:+ ".git" +:+ post
    /\ is_segment A /\ is_segment R.

(** The shape section 4.1 of the specification describes, in its words:
    [u] and [r] are the final two path segments of [url] before an
    optional [.git] suffix. *)
Definition spec_final_segments (url u r : string) : Prop :=
  exists pre suffix,
    url = pre +:+ "/" +:+ u +:+ "/" +:+ r +:+ suffix
    /\ (suffix = "" \/ suffix = ".git")
    /\ is_segment u /\ is_segment r.

(** Tails of [githubUserAndRepoNameRegex]. *)
Definition dot_git : list Regex.atom :=
  [Regex.Lit "."; Regex.Lit "g"; Regex.Lit "i"; Regex.Lit "t"].

Definition slash_repo : list Regex.atom :=
  Regex.Lit "/" :: Regex.CapPlus Regex.word_or_hyphen :: dot_git.

(** ** Node's [path] module

    [path.join] is the only function used. The module resolves to a
    platform flavour at run time, so the translator is written against
    the interface. *)
Class PathApi : Type := { path_join : string -> string -> string }.

(** The POSIX flavour: [path.posix.join] on two arguments, that is
    [normalize] of the non-empty arguments joined by a slash. *)
Module Posix.

Fixpoint segments (s : string) : list string :=
  match s with
  | EmptyString => [EmptyString]
  | String c s' =>
      if Ascii.eqb c "/" then EmptyString :: segments s'
      else
        match segments s' with
        | seg :: rest => String c seg :: rest
        | [] => [String c EmptyString]
        end
  end.

(** One step of [normalizeString]: [stack] holds the kept segments, the
    last one first. *)
Definition push_segment (allowAboveRoot : bool) (stack : list string)
    (seg : string) : list string :=
  if String.eqb seg "" || String.eqb seg "." then stack
  else if String.eqb seg ".." then
    match stack with
    | top :: below =>
        if String.eqb top ".." then
          (if allowAboveRoot then ".." :: stack else stack)
        else below
    | [] => if allowAboveRoot then [".."] else []
    end
  else seg :: stack.

Fixpoint join_segments (segs : list string) : string :=
  match segs with
  | [] => ""
  | [seg] => seg
  | seg :: rest => seg +:+ "/" +:+ join_segments rest
  end.

Definition normalizeString (p : string) (allowAboveRoot : bool) : string :=
  join_segments (rev (fold_left (push_segment allowAboveRoot) (segments p) [])).

Definition starts_with_slash (p : string) : bool :=
  match p with
  | String c _ => Ascii.eqb c "/"
  | EmptyString => false
  end.

Fixpoint ends_with_slash (p : string) : bool :=
  match p with
  | EmptyString => false
  | String c EmptyString => Ascii.eqb c "/"
  | String _ p' => ends_with_slash p'
  end.

Definition normalize (p : string) : string :=
  if String.eqb p "" then "."
  else
    let isAbsolute := starts_with_slash p in
    let trailingSeparator := ends_with_slash p in
    let p1 := normalizeString p (negb isAbsolute) in
    if String.eqb p1 "" then
      (if isAbsolute then "/" else if trailingSeparator then "./" else ".")
    else
      let p2 := if trailingSeparator then p1 +:+ "/" else p1 in
      if isAbsolute then "/" +:+ p2 else p2.

Definition join (a b : string) : string :=
  if String.eqb a "" then (if String.eqb b "" then "." else normalize b)
  else if String.eqb b "" then normalize a
  else normalize (a +:+ "/" +:+ b).

End Posix.

Definition posix : PathApi := {| path_join := Posix.join |}.

(** ** Data model *)

(** The part of [deepsource-node]'s issue the extension reads. *)
Record Issue : Type := mkIssue { title : string }.

(** [Occurence] (spelt as in [deepsource-node]). *)
Record Occurence : Type := mkOccurence {
  path : string;
  beginLine : Z;
  endLine : Z;
  beginColumn : Z;
  endColumn : Z;
  issue : Issue
}.

(** [occurrence.path = p] *)
Definition set_path (o : Occurence) (p : string) : Occurence :=
  {| path := p; beginLine := beginLine o; endLine := endLine o;
     beginColumn := beginColumn o; endColumn := endColumn o;
     issue := issue o |}.

Record Position : Type := mkPosition { line : Z; character : Z }.

Record Range : Type := mkRange { range_start : Position; range_end : Position }.

Inductive DiagnosticSeverity : Type :=
| Error | Warning | Information | Hint.

Record Diagnostic : Type := mkDiagnostic {
  range : Range;
  message : string;
  severity : DiagnosticSeverity
}.

Abbreviation DiagnosticMap := (gmap string (list Diagnostic)).

(** ** The file system, as far as [prepareDiagnostics] touches it

    A written file holds the value that was serialised into it. The calls
    are taken to succeed. *)
Record FileSystem : Type := mkFileSystem {
  dirs : gset string;
  files : gmap string (list Occurence)
}.

Definition existsSync (fs : FileSystem) (p : string) : bool :=
  bool_decide (p ∈ dirs fs) || bool_decide (is_Some (files fs !! p)).

Definition mkdirSync (fs : FileSystem) (p : string) : FileSystem :=
  {| dirs := {[p]} ∪ dirs fs; files := files fs |}.

Definition writeFileSync (fs : FileSystem) (p : string)
    (data : list Occurence) : FileSystem :=
  {| dirs := dirs fs; files := <[p := data]> (files fs) |}.

(** ** The diagnostic translator *)

(** Lines 82-94 of the loop body: the diagnostic of one occurrence. *)
Definition diagnosticOf (occurrence : Occurence) : Diagnostic :=
  let beginCol :=
    if beginColumn occurrence >? 0 then beginColumn occurrence - 1
    else beginColumn occurrence in
  let startPos := mkPosition (beginLine occurrence - 1) beginCol in
  let endPos := mkPosition (endLine occurrence - 1) (endColumn occurrence) in
  let range := mkRange startPos endPos in
  mkDiagnostic range (title (issue occurrence)) Error.

(** One iteration of the loop: lines 82-101. *)
Definition addOccurrence (diagnosticMap : DiagnosticMap)
    (occurrence : Occurence) : DiagnosticMap :=
  let filePath := path occurrence in
  let diagnostic := diagnosticOf occurrence in
  match diagnosticMap !! filePath with
  | Some diags => <[filePath := (diags ++ [diagnostic])%list]> diagnosticMap
  | None => <[filePath := [diagnostic]]> diagnosticMap
  end.

(** What a call leaves behind: the returned map, the caller's occurrence
    array (its elements are rewritten in place) and the file system. *)
Record Prepared : Type := mkPrepared {
  returned : DiagnosticMap;
  occurrences_after : list Occurence;
  fs_after : FileSystem
}.

Definition prepareDiagnostics `{PathApi} (workspaceDirPath : string)
    (occurrences : list Occurence) (fs : FileSystem) : Prepared :=
  let diagnosticMap : DiagnosticMap := ∅ in
  let jsonDumpDir := path_join workspaceDirPath ".deepsource" in
  let fs1 := if existsSync fs jsonDumpDir then fs else mkdirSync fs jsonDumpDir in
  let jsonDumpPath := path_join jsonDumpDir "issues.json" in
  let occurrences1 :=
    (fun occurrence =>
       set_path occurrence (path_join workspaceDirPath (path occurrence)))
    <$> occurrences in
  let diagnosticMap1 := fold_left addOccurrence occurrences1 diagnosticMap in
  let fs2 := writeFileSync fs1 jsonDumpPath occurrences1 in
  {| returned := diagnosticMap1; occurrences_after := occurrences1;
     fs_after := fs2 |}.

(** ** Session state

    The module-level variables of [extension.ts] and the objects [activate]
    creates, with the host calls made so far (latest last). *)

(** The client handle: [new DeepSource(token)]. *)
Record DeepSource : Type := mkDeepSource { accessToken : string }.

Inductive HostCall : Type :=
| ShowInputBox
| ShowErrorMessage (text : string)
| ShowInformationMessage (text : string)
| GetAllIssuesInRepo (repo account : string)
| DisposeTerminal
| CreateTerminal (name : string)
| ShowTerminal.

Record Uri : Type := mkUri { uri_text : string; fsPath : string }.
Record TextDocument : Type := mkTextDocument { uri : Uri }.
Record TextEditor : Type := mkTextEditor { document : TextDocument }.

Record State : Type := mkState {
  deepSource : option DeepSource;
  userName : option string;
  repoName : option string;
  diagnosticsInFile : DiagnosticMap;
  cache : gmap string string;
  diagnosticCollection : gmap string (list Diagnostic);
  auditTerminal : bool;
  fs : FileSystem;
  calls : list HostCall
}.

Definition set_deepSource (v : option DeepSource) (st : State) : State :=
  mkState v (userName st) (repoName st) (diagnosticsInFile st) (cache st)
    (diagnosticCollection st) (auditTerminal st) (fs st) (calls st).

Definition set_repoInfo (u r : option string) (st : State) : State :=
  mkState (deepSource st) u r (diagnosticsInFile st) (cache st)
    (diagnosticCollection st) (auditTerminal st) (fs st) (calls st).

Definition set_diagnosticsInFile (m : DiagnosticMap) (st : State) : State :=
  mkState (deepSource st) (userName st) (repoName st) m (cache st)
    (diagnosticCollection st) (auditTerminal st) (fs st) (calls st).

Definition set_cache (c : gmap string string) (st : State) : State :=
  mkState (deepSource st) (userName st) (repoName st) (diagnosticsInFile st) c
    (diagnosticCollection st) (auditTerminal st) (fs st) (calls st).

Definition set_diagnosticCollection (c : gmap string (list Diagnostic))
    (st : State) : State :=
  mkState (deepSource st) (userName st) (repoName st) (diagnosticsInFile st)
    (cache st) c (auditTerminal st) (fs st) (calls st).

Definition set_auditTerminal (b : bool) (st : State) : State :=
  mkState (deepSource st) (userName st) (repoName st) (diagnosticsInFile st)
    (cache st) (diagnosticCollection st) b (fs st) (calls st).

Definition set_fs (f : FileSystem) (st : State) : State :=
  mkState (deepSource st) (userName st) (repoName st) (diagnosticsInFile st)
    (cache st) (diagnosticCollection st) (auditTerminal st) f (calls st).

Definition log_call (c : HostCall) (st : State) : State :=
  mkState (deepSource st) (userName st) (repoName st) (diagnosticsInFile st)
    (cache st) (diagnosticCollection st) (auditTerminal st) (fs st)
    (calls st ++ [c])%list.

(** The state monad the handlers run in. *)
Definition M (A : Type) : Type := State -> A * State.

#[global] Instance M_ret : MRet M := fun A a st => (a, st).
#[global] Instance M_bind : MBind M :=
  fun A B f m st => f (m st).1 (m st).2.

Definition get_state : M State := fun st => (st, st).
Definition modify (f : State -> State) : M unit := fun st => (tt, f st).
Definition host (c : HostCall) : M unit := modify (log_call c).

(** JavaScript truthiness of a [string | undefined]. *)
Definition truthy (s : option string) : bool :=
  match s with
  | Some s => negb (String.eqb s "")
  | None => false
  end.

(** What the outside world answers during one run of the fetch command:
    the text the input box resolves to ([None] when dismissed) and the
    value [getAllIssuesInRepo] resolves to ([None] for [null]). A reply is
    consumed only if the handler asks. *)
Record Replies : Type := mkReplies {
  inputBox : option string;
  allIssuesInRepo : option (list Occurence)
}.

Definition dquote : string := String (ascii_of_nat 34) EmptyString.
Definition newline : string := String (ascii_of_nat 10) EmptyString.

Definition tokenKey : string := "personal-access-token".

(** [fetchAnalysisReport] *)
Definition fetchAnalysisReport (r : Replies) : M (option (list Occurence)) :=
  st ← get_state;
  match deepSource st, userName st, repoName st with
  | Some _, Some userName, Some repoName =>
      if truthy (Some userName) && truthy (Some repoName) then
        host (GetAllIssuesInRepo repoName userName);;
        match allIssuesInRepo r with
        | None =>
            host (ShowErrorMessage
                    ("Unable to fetch data for repository: " +:+ repoName
                     +:+ ", under account " +:+ dquote +:+ userName
                     +:+ dquote +:+ "." +:+ newline
                     +:+ "Please ensure analysis is activated on https://deepsource.com."));;
            mret None
        | Some allIssuesInRepo => mret (Some allIssuesInRepo)
        end
      else mret None
  | _, _, _ => mret None
  end.

(** [calculateDiagnostics] *)
Definition calculateDiagnostics `{PathApi} (workspaceDirPath : string)
    (r : Replies) : M bool :=
  occurrences ← fetchAnalysisReport r;
  match occurrences with
  | None => mret false
  | Some occurrences =>
      st ← get_state;
      let p := prepareDiagnostics workspaceDirPath occurrences (fs st) in
      modify (set_fs (fs_after p));;
      modify (set_diagnosticsInFile (returned p));;
      host (ShowInformationMessage "Successfully fetched issues from deepsource.io");;
      mret true
  end.

(** The handler of [extension.getAnalysisReport]. Each run is taken to
    finish, promise callbacks included, before the next event. *)
Definition getAnalysisReport `{PathApi} (workspaceDirPath : string)
    (r : Replies) : M unit :=
  st ← get_state;
  match deepSource st with
  | Some _ => calculateDiagnostics workspaceDirPath r;; mret tt
  | None =>
      match cache st !! tokenKey with
      | Some accessToken =>
          modify (set_deepSource (Some (mkDeepSource accessToken)));;
          modify (fun st => set_cache (<[tokenKey := accessToken]> (cache st)) st);;
          calculateDiagnostics workspaceDirPath r;;
          mret tt
      | None =>
          host ShowInputBox;;
          match inputBox r with
          | None => mret tt
          | Some pat =>
              if String.eqb pat "" then mret tt
              else
                modify (set_deepSource (Some (mkDeepSource pat)));;
                modify (fun st => set_cache (<[tokenKey := pat]> (cache st)) st);;
                success ← calculateDiagnostics workspaceDirPath r;
                if negb success then
                  modify (fun st => set_cache (delete tokenKey (cache st)) st);;
                  host (ShowErrorMessage "Incorrect personal access token.")
                else mret tt
          end
      end
  end.

(** The handler of [extension.openAuditTui]. *)
Definition openAuditTui : M unit :=
  st ← get_state;
  (if auditTerminal st then host DisposeTerminal else mret tt);;
  host (CreateTerminal "DeepSource audit");;
  modify (set_auditTerminal true);;
  host ShowTerminal.

(** The listener of [onDidChangeActiveTextEditor]. *)
Definition onDidChangeActiveTextEditor (editor : option TextEditor) : M unit :=
  match editor with
  | None => mret tt
  | Some editor =>
      let document := document editor in
      let filePath := fsPath (uri document) in
      modify (set_diagnosticCollection ∅);;
      st ← get_state;
      match diagnosticsInFile st !! filePath with
      | Some diags =>
          modify (fun st =>
            set_diagnosticCollection
              (<[uri_text (uri document) := diags]> (diagnosticCollection st)) st)
      | None => mret tt
      end
  end.

(** The continuation of [getRepoAndUserName(workspaceDirPath)] in
    [activate]. *)
Definition repoInfoResolved (repoInfo : option RepoInfo) : M unit :=
  match repoInfo with
  | None => mret tt
  | Some repoInfo =>
      modify (set_repoInfo (Some (ri_userName repoInfo))
                           (Some (ri_repoName repoInfo)))
  end.

(** [activate]: the state the session starts in, or the error thrown when
    no workspace folder is open. The stored cache is flushed; [disk] is the
    file system as found. *)
Definition activate (workspaceDirPath : option string) (disk : FileSystem)
    : string + State :=
  if truthy workspaceDirPath then
    inr (mkState None None None ∅ ∅ ∅ false disk [])
  else inl "Unable to resolve current workspace path".

(** What can happen after activation. *)
Inductive Event : Type :=
| RepoInfoResolved (isRepo : bool) (remoteUrl : option string)
| GetAnalysisReport (r : Replies)
| OpenAuditTui
| ActiveTextEditorChanged (editor : option TextEditor).

Definition handle `{PathApi} (workspaceDirPath : string) (ev : Event)
    : M unit :=
  match ev with
  | RepoInfoResolved isRepo remoteUrl =>
      repoInfoResolved (getRepoAndUserName isRepo remoteUrl)
  | GetAnalysisReport r => getAnalysisReport workspaceDirPath r
  | OpenAuditTui => openAuditTui
  | ActiveTextEditorChanged editor => onDidChangeActiveTextEditor editor
  end.

Definition step `{PathApi} (workspaceDirPath : string) (st : State)
    (ev : Event) : State :=
  (handle workspaceDirPath ev st).2.

Definition run `{PathApi} (workspaceDirPath : string) (evs : list Event)
    (st : State) : State :=
  fold_left (step workspaceDirPath) evs st.

(** ** Vocabulary of the statements *)

(** A map entry holds a non-empty array or does not exist. *)
Definition entry_of (diags : list Diagnostic) : option (list Diagnostic) :=
  match diags with
  | [] => None
  | _ => Some diags
  end.

(** The occurrences of [occs] whose path resolves to [p]. *)
Definition resolving_to `{PathApi} (workspaceDirPath p : string)
    (occs : list Occurence) : list Occurence :=
  filter (fun o => path_join workspaceDirPath (path o) = p) occs.

(** The number of diagnostics a map holds, all entries together. *)
Definition total_diagnostics (m : DiagnosticMap) : nat :=
  map_fold (fun _ diags n => (length diags + n)%nat) 0%nat m.

(** The fetch has nothing to return: the handle or the identity is absent,
    or the client answered [null]. *)
Definition fetch_fails (r : Replies) (st : State) : Prop :=
  deepSource st = None \/ truthy (userName st) = false
  \/ truthy (repoName st) = false \/ allIssuesInRepo r = None.

(** ** Concrete inputs *)

(** The occurrence of the scenario in section 8 of the specification. *)
Definition unusedImport : Occurence :=
  mkOccurence "a.py" 5 5 3 10 (mkIssue "Unused import").

Definition negativeColumn : Occurence :=
  mkOccurence "a.py" 5 5 (-2) 10 (mkIssue "Unused import").

Definition emptyDisk : FileSystem := mkFileSystem ∅ ∅.

(** The session right after [activate], and after the remote of the
    workspace has been read. *)
Definition freshSession : State :=
  mkState None None None ∅ ∅ ∅ false emptyDisk [].

Definition resolvedSession : State :=
  @step posix "/repo" freshSession
    (RepoInfoResolved true (Some "https://github.com/acme/app.git")).

Definition badToken : Replies := mkReplies (Some "bad-token") None.

Definition goodToken : Replies :=
  mkReplies (Some "good-token") (Some [unusedImport]).

(** The session after a first successful fetch. *)
Definition fetchedSession : State :=
  @run posix "/repo" [GetAnalysisReport goodToken] resolvedSession.

Definition editorOn (file : string) : option TextEditor :=
  Some (mkTextEditor (mkTextDocument (mkUri ("file://" +:+ file) file))).

(** ** Further vocabulary *)

(** The events that come from the editor's focus. *)
Definition is_focus_event (ev : Event) : bool :=
  match ev with
  | ActiveTextEditorChanged _ => true
  | _ => false
  end.

(** How often a host call satisfying [p] was made. *)
Definition count_calls (p : HostCall -> bool) (l : list HostCall) : nat :=
  length (filter (fun c => p c = true) l).

Definition is_CreateTerminal (c : HostCall) : bool :=
  match c with
  | CreateTerminal _ => true
  | _ => false
  end.

Definition is_DisposeTerminal (c : HostCall) : bool :=
  match c with
  | DisposeTerminal => true
  | _ => false
  end.

(** The terminals the extension has created and not disposed of. *)
Definition live_terminals (st : State) : Z :=
  Z.of_nat (count_calls is_CreateTerminal (calls st))
  - Z.of_nat (count_calls is_DisposeTerminal (calls st)).

(** The token in the cache, if any, is the one the handle was built from. *)
Definition token_backed (st : State) : Prop :=
  forall t, cache st !! tokenKey = Some t ->
    deepSource st = Some (mkDeepSource t).

Definition successMessage : string :=
  "Successfully fetched issues from deepsource.io".

Definition incorrectTokenMessage : string :=
  "Incorrect personal access token.".

(** The host calls the fetch command makes. *)
Definition is_fetch_call (c : HostCall) : bool :=
  match c with
  | ShowInputBox | ShowErrorMessage _ | ShowInformationMessage _
  | GetAllIssuesInRepo _ _ => true
  | _ => false
  end.

(** The handle and the identity are there and the client answers with
    [occs]. *)
Definition fetch_returns (r : Replies) (st : State) (u n : string)
    (occs : list Occurence) : Prop :=
  is_Some (deepSource st)
  /\ userName st = Some u /\ u <> "" /\ repoName st = Some n /\ n <> ""
  /\ allIssuesInRepo r = Some occs.

(** More concrete inputs. *)
Definition dismissed : Replies := mkReplies None None.

Definition editorAt (file : string) : TextEditor :=
  mkTextEditor (mkTextDocument (mkUri ("file://" +:+ file) file)).

(** The fetched session with [/repo/a.py] in focus. *)
Definition displayedSession : State :=
  @run posix "/repo" [ActiveTextEditorChanged (Some (editorAt "/repo/a.py"))]
    fetchedSession.

(** ** The translation with the host's checks

    The definitions above record what the extension hands to the host,
    the arguments of each constructor of [vscode] and of each call of
    [fs], every call taken to return. Here the checks of the host are part
    of the model: [vscode.Position] throws on a negative line or
    character, [vscode.Range] orders its two ends, [vscode.Diagnostic]
    throws on an empty message, and [mkdirSync] and [writeFileSync] may
    throw. Arithmetic on [Z] agrees with the doubles of the source on safe
    integers. *)

Inductive Thrown : Type :=
| IllegalArgument (what : string)
| TypeError (what : string)
| SystemError (code : string).

(** What Node answers to the two writing calls, if they are made: [None]
    when the call returns, the error otherwise. *)
Record FsFaults : Type := mkFsFaults {
  mkdir_fault : option Thrown;
  write_fault : option Thrown
}.

Definition noFaults : FsFaults := mkFsFaults None None.

(** [Number.isSafeInteger] for the four numbers of an occurrence. *)
Definition safe_integer (z : Z) : Prop := - 2 ^ 53 < z < 2 ^ 53.

Definition safe (o : Occurence) : Prop :=
  safe_integer (beginLine o) /\ safe_integer (endLine o)
  /\ safe_integer (beginColumn o) /\ safe_integer (endColumn o).

Module Checked.

(** [new vscode.Position(line, character)] *)
Definition new_Position (line character : Z) : Thrown + Position :=
  if (line <? 0)%Z then inl (IllegalArgument "line must be non-negative")
  else if (character <? 0)%Z then
    inl (IllegalArgument "character must be non-negative")
  else inr (mkPosition line character).

(** [Position.isBefore] *)
Definition isBefore (a b : Position) : bool :=
  if (line a <? line b)%Z then true
  else if (line b <? line a)%Z then false
  else (character a <? character b)%Z.

(** [new vscode.Range(start, end)]: the earlier position becomes the
    start. *)
Definition new_Range (startPos endPos : Position) : Range :=
  if isBefore startPos endPos then mkRange startPos endPos
  else mkRange endPos startPos.

(** [new vscode.Diagnostic(range, message, severity)] *)
Definition new_Diagnostic (range : Range) (message : string)
    (severity : DiagnosticSeverity) : Thrown + Diagnostic :=
  if String.eqb message "" then inl (TypeError "message must be set")
  else inr (mkDiagnostic range message severity).

(** Lines 82-94 of the loop body. *)
Definition diagnosticOf (occurrence : Occurence) : Thrown + Diagnostic :=
  let beginCol :=
    if beginColumn occurrence >? 0 then beginColumn occurrence - 1
    else beginColumn occurrence in
  match new_Position (beginLine occurrence - 1) beginCol with
  | inl e => inl e
  | inr startPos =>
      match new_Position (endLine occurrence - 1) (endColumn occurrence) with
      | inl e => inl e
      | inr endPos =>
          let range := new_Range startPos endPos in
          new_Diagnostic range (title (issue occurrence)) Error
      end
  end.

(** The loop of lines 81-102; a throw leaves it at once. *)
Fixpoint addOccurrences (occurrences : list Occurence)
    (diagnosticMap : DiagnosticMap) : Thrown + DiagnosticMap :=
  match occurrences with
  | [] => inr diagnosticMap
  | occurrence :: rest =>
      let filePath := path occurrence in
      match diagnosticOf occurrence with
      | inl e => inl e
      | inr diagnostic =>
          addOccurrences rest
            match diagnosticMap !! filePath with
            | Some diags =>
                <[filePath := (diags ++ [diagnostic])%list]> diagnosticMap
            | None => <[filePath := [diagnostic]]> diagnosticMap
            end
      end
  end.

(** [prepareDiagnostics]: the error thrown, or what the call leaves
    behind when it returns. *)
Definition prepareDiagnostics `{PathApi} (workspaceDirPath : string)
    (occurrences : list Occurence) (fs : FileSystem) (faults : FsFaults)
    : Thrown + Prepared :=
  let diagnosticMap : DiagnosticMap := ∅ in
  let jsonDumpDir := path_join workspaceDirPath ".deepsource" in
  match
    (if existsSync fs jsonDumpDir then inr fs
     else match mkdir_fault faults with
          | Some e => inl e
          | None => inr (mkdirSync fs jsonDumpDir)
          end)
  with
  | inl e => inl e
  | inr fs1 =>
      let jsonDumpPath := path_join jsonDumpDir "issues.json" in
      let occurrences1 :=
        (fun occurrence =>
           set_path occurrence (path_join workspaceDirPath (path occurrence)))
        <$> occurrences in
      match addOccurrences occurrences1 diagnosticMap with
      | inl e => inl e
      | inr diagnosticMap1 =>
          match write_fault faults with
          | Some e => inl e
          | None =>
              inr {| returned := diagnosticMap1;
                     occurrences_after := occurrences1;
                     fs_after := writeFileSync fs1 jsonDumpPath occurrences1 |}
          end
      end
  end.

End Checked.

(** The session with the host's checks: a throw inside
    [prepareDiagnostics] rejects the promise of [calculateDiagnostics]. *)
Module CheckedSession.

(** The file system a throwing [prepareDiagnostics] leaves: the directory
    may have been made before the throw. *)
Definition fs_at_throw `{PathApi} (workspaceDirPath : string)
    (fs : FileSystem) (faults : FsFaults) : FileSystem :=
  let jsonDumpDir := path_join workspaceDirPath ".deepsource" in
  if existsSync fs jsonDumpDir then fs
  else match mkdir_fault faults with
       | Some _ => fs
       | None => mkdirSync fs jsonDumpDir
       end.

(** [calculateDiagnostics]: the promise rejects with the error thrown, or
    resolves to the boolean. *)
Definition calculateDiagnostics `{PathApi} (workspaceDirPath : string)
    (r : Replies) (faults : FsFaults) : M (Thrown + bool) :=
  occurrences ← fetchAnalysisReport r;
  match occurrences with
  | None => mret (inr false)
  | Some occurrences =>
      st ← get_state;
      match Checked.prepareDiagnostics workspaceDirPath occurrences (fs st)
              faults with
      | inl e =>
          modify (set_fs (fs_at_throw workspaceDirPath (fs st) faults));;
          mret (inl e)
      | inr p =>
          modify (set_fs (fs_after p));;
          modify (set_diagnosticsInFile (returned p));;
          host (ShowInformationMessage
                  "Successfully fetched issues from deepsource.io");;
          mret (inr true)
      end
  end.

(** The handler of [extension.getAnalysisReport]; a rejected promise is
    not handled, so its [then] callback does not run. *)
Definition getAnalysisReport `{PathApi} (workspaceDirPath : string)
    (r : Replies) (faults : FsFaults) : M unit :=
  st ← get_state;
  match deepSource st with
  | Some _ => calculateDiagnostics workspaceDirPath r faults;; mret tt
  | None =>
      match cache st !! tokenKey with
      | Some accessToken =>
          modify (set_deepSource (Some (mkDeepSource accessToken)));;
          modify (fun st => set_cache (<[tokenKey := accessToken]> (cache st)) st);;
          calculateDiagnostics workspaceDirPath r faults;;
          mret tt
      | None =>
          host ShowInputBox;;
          match inputBox r with
          | None => mret tt
          | Some pat =>
              if String.eqb pat "" then mret tt
              else
                modify (set_deepSource (Some (mkDeepSource pat)));;
                modify (fun st => set_cache (<[tokenKey := pat]> (cache st)) st);;
                success ← calculateDiagnostics workspaceDirPath r faults;
                match success with
                | inl _ => mret tt
                | inr success =>
                    if negb success then
                      modify (fun st => set_cache (delete tokenKey (cache st)) st);;
                      host (ShowErrorMessage "Incorrect personal access token.")
                    else mret tt
                end
          end
      end
  end.

End CheckedSession.

(** The constructors accept the occurrence: lines and columns handed to
    [vscode.Position] are not negative and the title is not empty. *)
Definition accepted (o : Occurence) : Prop :=
  1 <= beginLine o /\ 0 <= beginColumn o /\ 1 <= endLine o
  /\ 0 <= endColumn o /\ title (issue o) <> "".

(** The diagnostic of an accepted occurrence. *)
Definition diagnosticOfAccepted (o : Occurence) : Diagnostic :=
  mkDiagnostic
    (Checked.new_Range
       (mkPosition (beginLine o - 1)
          (if beginColumn o >? 0 then beginColumn o - 1 else beginColumn o))
       (mkPosition (endLine o - 1) (endColumn o)))
    (title (issue o)) Error.

(** One iteration of the loop with a given diagnostic. *)
Definition addDiagnostic (m : DiagnosticMap) (o : Occurence) : DiagnosticMap :=
  match m !! path o with
  | Some diags => <[path o := (diags ++ [diagnosticOfAccepted o])%list]> m
  | None => <[path o := [diagnosticOfAccepted o]]> m
  end.

(** Concrete occurrences the constructors treat differently. *)
Definition endBeforeBegin : Occurence :=
  mkOccurence "a.py" 5 5 12 10 (mkIssue "Unused import").

Definition untitled : Occurence :=
  mkOccurence "a.py" 5 5 3 10 (mkIssue "").


(** * Properties *)

(** ** Facts about strings *)

Lemma string_app_cons c s t : String c s +:+ t = String c (s +:+ t).
Proof. reflexivity. Qed.

Lemma string_app_nil_l s : "" +:+ s = s.
Proof. reflexivity. Qed.

Lemma string_app_assoc s t u : (s +:+ t) +:+ u = s +:+ (t +:+ u).
Proof.
  induction s as [|c s IH]; [reflexivity|].
  rewrite !string_app_cons. by rewrite IH.
Qed.

Lemma string_app_length s t :
  String.length (s +:+ t) = (String.length s + String.length t)%nat.
Proof.
  induction s as [|c s IH]; [reflexivity|].
  rewrite string_app_cons. simpl. by rewrite IH.
Qed.

(** ** The regular expression *)

Section GreedyPlus.
Variable cls : ascii -> bool.
Variable k : string -> option Regex.hit.

Lemma greedy_plus_sound s g h :
  Regex.greedy_plus cls k s = Some (g, h) ->
  exists rest, s = g +:+ rest /\ g <> "" /\ string_forall cls g = true
    /\ k rest = Some h.
Proof.
  revert g h. induction s as [|c s IH]; intros g h; simpl; [done|].
  destruct (cls c) eqn:Hc; [|done].
  destruct (Regex.greedy_plus cls k s) as [[g' h']|] eqn:Hg.
  - intros [= <- <-]. destruct (IH _ _ eq_refl) as (rest & -> & Hne & Hall & Hk).
    exists rest. rewrite string_app_cons. simpl. rewrite Hc, Hall. done.
  - destruct (k s) as [h'|] eqn:Hk; [|done].
    intros [= <- <-]. exists s. simpl. rewrite Hc. done.
Qed.

(** When the continuation rejects every text that starts with a class
    character, the group is the whole run. *)
Hypothesis k_rejects : forall c t, cls c = true -> k (String c t) = None.

Lemma greedy_plus_stops rest h :
  k rest = Some h -> Regex.greedy_plus cls k rest = None.
Proof.
  destruct rest as [|c t]; [done|]. intros Hk. simpl.
  destruct (cls c) eqn:Hc; [|done].
  rewrite k_rejects in Hk by done. done.
Qed.

Lemma greedy_plus_complete g rest h :
  g <> "" -> string_forall cls g = true -> k rest = Some h ->
  Regex.greedy_plus cls k (g +:+ rest) = Some (g, h).
Proof.
  induction g as [|c g IH]; [done|]. intros _ Hall Hk.
  simpl in Hall. apply andb_true_iff in Hall as [Hc Hall].
  rewrite string_app_cons. simpl. rewrite Hc.
  destruct g as [|c' g'].
  - rewrite string_app_nil_l, (greedy_plus_stops _ _ Hk), Hk. done.
  - rewrite IH; done.
Qed.

End GreedyPlus.

Lemma match_lit c re s h :
  Regex.match_here (Regex.Lit c :: re) s = Some h <->
  exists s' w caps, s = String c s'
    /\ Regex.match_here re s' = Some (w, caps) /\ h = (String c w, caps).
Proof.
  cbn [Regex.match_here]. split.
  - destruct s as [|c' s']; [done|].
    destruct (Ascii.eqb_spec c c') as [<-|]; [|done].
    destruct (Regex.match_here re s') as [[w caps]|] eqn:Hm; [|done].
    intros [= <-]. exists s', w, caps. done.
  - intros (s' & w & caps & -> & Hm & ->).
    rewrite Ascii.eqb_refl, Hm. done.
Qed.

Lemma match_lit_rejects c re c' t :
  c <> c' -> Regex.match_here (Regex.Lit c :: re) (String c' t) = None.
Proof.
  intros Hne. cbn [Regex.match_here].
  destruct (Ascii.eqb_spec c c'); done.
Qed.

Lemma match_dot_git s h :
  Regex.match_here dot_git s = Some h <->
  exists post, s = ".git" +:+ post /\ h = (".git", []).
Proof.
  unfold dot_git. split.
  - intros H.
    apply match_lit in H as (s1 & w1 & caps1 & -> & H & ->).
    apply match_lit in H as (s2 & w2 & caps2 & -> & H & [= -> ->]).
    apply match_lit in H as (s3 & w3 & caps3 & -> & H & [= -> ->]).
    apply match_lit in H as (s4 & w4 & caps4 & -> & H & [= -> ->]).
    cbn [Regex.match_here] in H. injection H as <- <-. by exists s4.
  - intros (post & -> & ->).
    repeat (apply match_lit; eexists _, _, _; split; [reflexivity|split; [|reflexivity]]).
    reflexivity.
Qed.

Lemma match_dot_git_rejects c t :
  Regex.word_or_hyphen c = true -> Regex.match_here dot_git (String c t) = None.
Proof.
  intros Hc. apply match_lit_rejects. by intros <-.
Qed.

Lemma match_cap_plus cls re s h :
  Regex.match_here (Regex.CapPlus cls :: re) s = Some h <->
  exists g w caps,
    Regex.greedy_plus cls (Regex.match_here re) s = Some (g, (w, caps))
    /\ h = (g +:+ w, g :: caps).
Proof.
  cbn [Regex.match_here]. split.
  - destruct (Regex.greedy_plus _ _ s) as [[g [w caps]]|] eqn:Hg; [|done].
    intros [= <-]. exists g, w, caps. done.
  - intros (g & w & caps & -> & ->). done.
Qed.

Lemma match_slash_repo s h :
  Regex.match_here slash_repo s = Some h <->
  exists R post, s = "/" +:+ R +:+ ".git" +:+ post /\ is_segment R
    /\ h = ("/" +:+ R +:+ ".git", [R]).
Proof.
  unfold slash_repo. split.
  - intros H. apply match_lit in H as (s1 & w1 & caps1 & -> & H & ->).
    apply match_cap_plus in H as (g & w & caps & Hg & [= -> ->]).
    apply greedy_plus_sound in Hg as (rest & -> & Hne & Hall & Hk).
    apply match_dot_git in Hk as (post & -> & [= -> ->]).
    exists g, post. done.
  - intros (R & post & -> & [Hne Hall] & ->).
    apply match_lit. exists (R +:+ ".git" +:+ post), (R +:+ ".git"), [R].
    split; [done|]. split; [|done].
    apply match_cap_plus. exists R, ".git", []. split; [|done].
    apply greedy_plus_complete;
      [apply match_dot_git_rejects | done | done |].
    apply match_dot_git. by exists post.
Qed.

Lemma match_slash_repo_rejects c t :
  Regex.word_or_hyphen c = true -> Regex.match_here slash_repo (String c t) = None.
Proof.
  intros Hc. apply match_lit_rejects. by intros <-.
Qed.

(** Matching the expression at a fixed position. *)
Lemma match_here_repo s h :
  Regex.match_here githubUserAndRepoNameRegex s = Some h <->
  exists A R, starts_with_repo s A R
    /\ h = (A +:+ "/" +:+ R +:+ ".git", [A; R]).
Proof.
  change githubUserAndRepoNameRegex
    with (Regex.CapPlus Regex.word_or_hyphen :: slash_repo).
  split.
  - intros H. apply match_cap_plus in H as (g & w & caps & Hg & ->).
    apply greedy_plus_sound in Hg as (rest & -> & Hne & Hall & Hk).
    apply match_slash_repo in Hk as (R & post & -> & HR & [= -> ->]).
    exists g, R. split; [|done]. exists post. done.
  - intros (A & R & (post & -> & [Hne Hall] & HR) & ->).
    apply match_cap_plus. exists A, ("/" +:+ R +:+ ".git"), [R].
    split; [|done].
    apply greedy_plus_complete;
      [apply match_slash_repo_rejects | done | done |].
    apply match_slash_repo. exists R, post. done.
Qed.

(** The scan over start positions returns the match at the leftmost
    position that has one. *)
Lemma search_found re pre s h :
  Regex.match_here re s = Some h ->
  (forall pre1 s1, pre +:+ s = pre1 +:+ s1 ->
     (String.length pre1 < String.length pre)%nat ->
     Regex.match_here re s1 = None) ->
  Regex.search re (pre +:+ s) = Some h.
Proof.
  induction pre as [|c pre IH]; intros Hm Hleft.
  - rewrite string_app_nil_l. destruct s; simpl; rewrite Hm; done.
  - rewrite string_app_cons. simpl.
    rewrite (Hleft "" (String c (pre +:+ s))) by (done || simpl; lia).
    apply IH; [done|]. intros pre1 s1 Heq Hlen.
    apply (Hleft (String c pre1) s1).
    + by rewrite !string_app_cons, Heq.
    + simpl. lia.
Qed.

Lemma search_sound re s h :
  Regex.search re s = Some h ->
  exists pre s', s = pre +:+ s' /\ Regex.match_here re s' = Some h
    /\ forall pre1 s1, s = pre1 +:+ s1 ->
         (String.length pre1 < String.length pre)%nat ->
         Regex.match_here re s1 = None.
Proof.
  induction s as [|c s IH]; simpl.
  - destruct (Regex.match_here re "") as [h'|] eqn:Hm; [|done].
    intros [= <-]. exists "", "". repeat split; [done|].
    intros pre1 s1 _ Hlen. simpl in Hlen. lia.
  - destruct (Regex.match_here re (String c s)) as [h'|] eqn:Hm.
    + intros [= <-]. exists "", (String c s). repeat split; [done|].
      intros pre1 s1 _ Hlen. simpl in Hlen. lia.
    + intros Hs. destruct (IH Hs) as (pre & s' & -> & Hm' & Hleft).
      exists (String c pre), s'. repeat split; [done|].
      intros [|c1 pre1] s1 Heq Hlen.
      * rewrite string_app_nil_l in Heq. by subst s1.
      * rewrite string_app_cons in Heq. injection Heq as -> Heq.
        apply (Hleft pre1 s1 Heq). simpl in Hlen. lia.
Qed.

Lemma search_none re s :
  Regex.search re s = None <->
  forall pre s', s = pre +:+ s' -> Regex.match_here re s' = None.
Proof.
  split.
  - induction s as [|c s IH]; simpl.
    + destruct (Regex.match_here re "") eqn:Hm; [done|].
      intros _ [|c pre] s'; [|done]. rewrite string_app_nil_l. by intros <-.
    + destruct (Regex.match_here re (String c s)) eqn:Hm; [done|].
      intros Hs [|c1 pre] s'.
      * rewrite string_app_nil_l. by intros <-.
      * rewrite string_app_cons. intros [= -> ->]. by apply (IH Hs pre).
  - intros Hnone. destruct (Regex.search re s) as [h|] eqn:Hs; [|done].
    apply search_sound in Hs as (pre & s' & -> & Hm & _).
    by rewrite (Hnone pre s') in Hm.
Qed.

Lemma starts_with_repo_match s A R :
  starts_with_repo s A R <->
  Regex.match_here githubUserAndRepoNameRegex s
  = Some (A +:+ "/" +:+ R +:+ ".git", [A; R]).
Proof.
  rewrite match_here_repo. split.
  - intros H. exists A, R. done.
  - intros (A' & R' & H & [= _ -> ->]). done.
Qed.

Lemma no_repo_match s :
  Regex.match_here githubUserAndRepoNameRegex s = None <->
  forall A R, ~ starts_with_repo s A R.
Proof.
  split.
  - intros Hm A R H. apply starts_with_repo_match in H. congruence.
  - intros Hno.
    destruct (Regex.match_here _ s) as [h|] eqn:Hm; [|done].
    apply match_here_repo in Hm as (A & R & H & _). by destruct (Hno A R).
Qed.

Lemma getRepoAndUserName_search url :
  getRepoAndUserName true (Some url) =
  match Regex.search githubUserAndRepoNameRegex url with
  | Some (_, [userName; repoName]) => Some (mkRepoInfo userName repoName)
  | _ => None
  end.
Proof.
  unfold getRepoAndUserName, Regex.String_match. simpl negb. cbv iota.
  destruct (Regex.search _ url) as [[w caps]|]; [|done].
  destruct caps as [|a [|b [|c caps]]]; done.
Qed.

(** What the expression does: [getRepoAndUserName] answers the account
    [u] and the repository [r] exactly when the URL contains, at its
    leftmost matching position, the text [u/r.git] with [u] and [r]
    non-empty runs of word characters or hyphens, and [None] exactly when
    the URL contains no such text. *)
Theorem getRepoAndUserName_leftmost_dot_git url :
  (forall u r,
     getRepoAndUserName true (Some url) = Some (mkRepoInfo u r) <->
     exists pre s, url = pre +:+ s /\ starts_with_repo s u r
       /\ forall pre1 s1 A R, url = pre1 +:+ s1 ->
            (String.length pre1 < String.length pre)%nat ->
            ~ starts_with_repo s1 A R)
  /\ (getRepoAndUserName true (Some url) = None <->
      forall pre s A R, url = pre +:+ s -> ~ starts_with_repo s A R).
Proof.
  rewrite getRepoAndUserName_search. split.
  - intros u r. split.
    + destruct (Regex.search _ url) as [[w caps]|] eqn:Hs; [|done].
      apply search_sound in Hs as (pre & s & -> & Hm & Hleft).
      apply match_here_repo in Hm as (A & R & HAR & [= -> ->]).
      intros [= <- <-]. exists pre, s. repeat split; [done|].
      intros pre1 s1 A' R' Heq Hlen. by apply no_repo_match, (Hleft pre1).
    + intros (pre & s & -> & HAR & Hleft).
      rewrite (search_found _ pre s (u +:+ "/" +:+ r +:+ ".git", [u; r])); [done| |].
      * by apply starts_with_repo_match.
      * intros pre1 s1 Heq Hlen. apply no_repo_match.
        intros A R. by apply (Hleft pre1 s1).
  - split.
    + destruct (Regex.search _ url) as [[w caps]|] eqn:Hs.
      * apply search_sound in Hs as (pre & s & -> & Hm & _).
        apply match_here_repo in Hm as (A & R & HAR & [= -> ->]). done.
      * intros _ pre s A R Heq. revert A R. apply no_repo_match.
        by apply (proj1 (search_none _ _) Hs pre).
    + intros Hno.
      rewrite (proj2 (search_none githubUserAndRepoNameRegex url)); [done|].
      intros pre s Heq. apply no_repo_match. intros A R. by apply (Hno pre s).
Qed.

(** ** The diagnostic translator *)
(** ** The loop of [prepareDiagnostics] *)

Lemma diagnosticOf_set_path o p : diagnosticOf (set_path o p) = diagnosticOf o.
Proof. reflexivity. Qed.

Lemma fold_addOccurrence_lookup occs (m : DiagnosticMap) p :
  fold_left addOccurrence occs m !! p =
  match m !! p with
  | Some diags =>
      Some (diags ++ (diagnosticOf <$> filter (fun o => path o = p) occs))%list
  | None => entry_of (diagnosticOf <$> filter (fun o => path o = p) occs)
  end.
Proof.
  revert m. induction occs as [|o occs IH]; intros m; simpl.
  - destruct (m !! p); [by rewrite app_nil_r|done].
  - rewrite IH. unfold addOccurrence.
    destruct (decide (path o = p)) as [Heq|Hne].
    + rewrite filter_cons_True by done. subst p.
      destruct (m !! path o) as [diags|].
      * rewrite lookup_insert_eq, fmap_cons. by rewrite <- app_assoc.
      * rewrite lookup_insert_eq. done.
    + rewrite filter_cons_False by done.
      destruct (m !! path o) as [diags|]; by rewrite lookup_insert_ne.
Qed.

Lemma total_diagnostics_insert (m : DiagnosticMap) k diags :
  m !! k = None ->
  total_diagnostics (<[k := diags]> m) = (length diags + total_diagnostics m)%nat.
Proof.
  intros Hk. unfold total_diagnostics.
  rewrite map_fold_insert_L; [done| |done].
  intros. lia.
Qed.

Lemma total_diagnostics_update (m : DiagnosticMap) k old diags :
  m !! k = Some old ->
  (total_diagnostics (<[k := diags]> m) + length old
   = length diags + total_diagnostics m)%nat.
Proof.
  intros Hk.
  rewrite <- (insert_delete_eq m k diags).
  rewrite <- (insert_delete_id m k old) at 2 by done.
  rewrite !total_diagnostics_insert by apply lookup_delete_eq. lia.
Qed.



Section Translator.
Context `{PathApi}.
Variable workspaceDirPath : string.

Lemma filter_rewritten p occs :
  diagnosticOf <$>
    filter (fun o => path o = p)
      ((fun o => set_path o (path_join workspaceDirPath (path o))) <$> occs)
  = diagnosticOf <$> resolving_to workspaceDirPath p occs.
Proof.
  unfold resolving_to. induction occs as [|o occs IH]; [done|].
  rewrite fmap_cons.
  destruct (decide (path_join workspaceDirPath (path o) = p)) as [Heq|Hne].
  - rewrite !filter_cons_True by done. rewrite !fmap_cons, IH. done.
  - rewrite !filter_cons_False by done. done.
Qed.

(** The returned map, entry by entry. *)
Lemma prepareDiagnostics_lookup occs fs p :
  returned (prepareDiagnostics workspaceDirPath occs fs) !! p
  = entry_of (diagnosticOf <$> resolving_to workspaceDirPath p occs).
Proof.
  unfold prepareDiagnostics. cbn [returned].
  rewrite fold_addOccurrence_lookup, lookup_empty. by rewrite filter_rewritten.
Qed.



Lemma resolving_to_nil p occs :
  resolving_to workspaceDirPath p occs = [] <->
  forall o, o ∈ occs -> path_join workspaceDirPath (path o) <> p.
Proof.
  unfold resolving_to. split.
  - intros Hnil o Ho Heq.
    assert (o ∈ filter (fun o => path_join workspaceDirPath (path o) = p) occs)
      as Hin by (apply list_elem_of_filter; done).
    rewrite Hnil in Hin. by apply elem_of_nil in Hin.
  - intros Hno. induction occs as [|o occs IH]; [done|].
    rewrite filter_cons_False by (apply Hno; left).
    apply IH. intros o' Ho'. apply Hno. by right.
Qed.




End Translator.

(** ** The session *)
Ltac run_M :=
  unfold mbind, M_bind, mret, M_ret, host, modify, get_state; cbn.

Section Session.
Context `{PathApi}.
Variable workspaceDirPath : string.

Lemma fetchAnalysisReport_None r st :
  (fetchAnalysisReport r st).1 = None <-> fetch_fails r st.
Proof.
  unfold fetch_fails, fetchAnalysisReport. run_M.
  destruct (deepSource st) as [d|], (userName st) as [u|], (repoName st) as [n|];
    cbn; try (split; [intros _|done]; tauto).
  destruct (negb (String.eqb u "")) eqn:Hu, (negb (String.eqb n "")) eqn:Hn;
    cbn; try (split; [intros _|done]; tauto).
  destruct (allIssuesInRepo r) as [occs|]; cbn.
  - split; [done|]. intros [?|[?|[?|?]]]; done.
  - split; [intros _|done]. tauto.
Qed.

Lemma fetchAnalysisReport_state r st :
  let st' := (fetchAnalysisReport r st).2 in
  deepSource st' = deepSource st /\ userName st' = userName st
  /\ repoName st' = repoName st
  /\ diagnosticsInFile st' = diagnosticsInFile st /\ cache st' = cache st
  /\ diagnosticCollection st' = diagnosticCollection st
  /\ auditTerminal st' = auditTerminal st /\ fs st' = fs st
  /\ exists delta, calls st' = (calls st ++ delta)%list
       /\ ShowInputBox ∉ delta.
Proof.
  unfold fetchAnalysisReport. run_M.
  assert (ShowInputBox ∉ @nil HostCall) as Hnil by apply not_elem_of_nil.
  destruct (deepSource st) as [d|] eqn:Hd, (userName st) as [u|] eqn:Hu,
    (repoName st) as [n|] eqn:Hn;
    cbn; try (repeat split; try done; exists []; by rewrite app_nil_r).
  destruct (negb (String.eqb u "")), (negb (String.eqb n ""));
    cbn; try (repeat split; try done; exists []; by rewrite app_nil_r).
  destruct (allIssuesInRepo r) as [occs|]; cbn; repeat split; try done.
  - eexists. split; [reflexivity|].
    intros Hin. apply list_elem_of_singleton in Hin. discriminate.
  - eexists. split; [by rewrite <- app_assoc|].
    intros Hin. apply elem_of_cons in Hin as [Hin|Hin]; [discriminate|].
    apply list_elem_of_singleton in Hin. discriminate.
Qed.

Lemma calculateDiagnostics_eq r st :
  calculateDiagnostics workspaceDirPath r st =
  match (fetchAnalysisReport r st).1 with
  | None => (false, (fetchAnalysisReport r st).2)
  | Some occurrences =>
      let st1 := (fetchAnalysisReport r st).2 in
      let p := prepareDiagnostics workspaceDirPath occurrences (fs st1) in
      (true,
       log_call
         (ShowInformationMessage "Successfully fetched issues from deepsource.io")
         (set_diagnosticsInFile (returned p) (set_fs (fs_after p) st1)))
  end.
Proof.
  unfold calculateDiagnostics. unfold mbind at 1, M_bind at 1.
  destruct ((fetchAnalysisReport r st).1); reflexivity.
Qed.

Lemma calculateDiagnostics_false r st :
  (calculateDiagnostics workspaceDirPath r st).1 = false <-> fetch_fails r st.
Proof.
  rewrite <- fetchAnalysisReport_None, calculateDiagnostics_eq.
  destruct ((fetchAnalysisReport r st).1) as [occs|]; done.
Qed.

Lemma calculateDiagnostics_state r st :
  let st' := (calculateDiagnostics workspaceDirPath r st).2 in
  deepSource st' = deepSource st /\ userName st' = userName st
  /\ repoName st' = repoName st /\ cache st' = cache st
  /\ diagnosticCollection st' = diagnosticCollection st
  /\ auditTerminal st' = auditTerminal st
  /\ exists delta, calls st' = (calls st ++ delta)%list
       /\ ShowInputBox ∉ delta.
Proof.
  destruct (fetchAnalysisReport_state r st)
    as (Hd & Hu & Hn & _ & Hc & Hdc & Ha & _ & delta & Hcalls & Hdelta).
  cbv zeta. rewrite calculateDiagnostics_eq.
  destruct ((fetchAnalysisReport r st).1) as [occs|]; cbn.
  - repeat split; try done.
    exists (delta ++ [ShowInformationMessage
                        "Successfully fetched issues from deepsource.io"])%list.
    split; [by rewrite Hcalls, <- app_assoc|].
    intros Hin. apply elem_of_app in Hin as [Hin|Hin]; [done|].
    apply list_elem_of_singleton in Hin. discriminate.
  - repeat split; try done. by exists delta.
Qed.

(** C8: when the fetch fails, [calculateDiagnostics] answers [false] and
    leaves [diagnosticsInFile] as it was. *)
Theorem calculateDiagnostics_failure_keeps_map r st :
  fetch_fails r st ->
  (calculateDiagnostics workspaceDirPath r st).1 = false
  /\ diagnosticsInFile (calculateDiagnostics workspaceDirPath r st).2
     = diagnosticsInFile st.
Proof.
  intros Hfail. split; [by apply calculateDiagnostics_false|].
  apply fetchAnalysisReport_None in Hfail.
  destruct (fetchAnalysisReport_state r st) as (_ & _ & _ & Hm & _).
  rewrite calculateDiagnostics_eq, Hfail. done.
Qed.


#[local] Arguments calculateDiagnostics : simpl never.

Lemma getAnalysisReport_handle r st d :
  deepSource st = Some d ->
  getAnalysisReport workspaceDirPath r st
  = (tt, (calculateDiagnostics workspaceDirPath r st).2).
Proof.
  intros Hd. unfold getAnalysisReport. run_M. by rewrite Hd.
Qed.

Lemma getAnalysisReport_stored r st accessToken :
  deepSource st = None -> cache st !! tokenKey = Some accessToken ->
  getAnalysisReport workspaceDirPath r st
  = (tt,
     (calculateDiagnostics workspaceDirPath r
        (set_cache (<[tokenKey := accessToken]> (cache st))
           (set_deepSource (Some (mkDeepSource accessToken)) st))).2).
Proof.
  intros Hd Hc. unfold getAnalysisReport. run_M. by rewrite Hd, Hc.
Qed.

Lemma getAnalysisReport_dismissed r st :
  deepSource st = None -> cache st !! tokenKey = None ->
  inputBox r = None \/ inputBox r = Some "" ->
  getAnalysisReport workspaceDirPath r st = (tt, log_call ShowInputBox st).
Proof.
  intros Hd Hc Hr. unfold getAnalysisReport. run_M. rewrite Hd, Hc.
  by destruct Hr as [->| ->].
Qed.

Lemma getAnalysisReport_entered r st pat :
  deepSource st = None -> cache st !! tokenKey = None ->
  inputBox r = Some pat -> pat <> "" ->
  getAnalysisReport workspaceDirPath r st
  = let st1 :=
      set_cache (<[tokenKey := pat]> (cache st))
        (set_deepSource (Some (mkDeepSource pat)) (log_call ShowInputBox st)) in
    let c := calculateDiagnostics workspaceDirPath r st1 in
    (tt,
     if c.1 then c.2
     else log_call (ShowErrorMessage "Incorrect personal access token.")
            (set_cache (delete tokenKey (cache c.2)) c.2)).
Proof.
  intros Hd Hc Hr Hpat. unfold getAnalysisReport. run_M. rewrite Hd, Hc, Hr.
  apply String.eqb_neq in Hpat. rewrite Hpat. cbn.
  by destruct (calculateDiagnostics _ _ _).1.
Qed.

(** C3, the behaviour of the code: after a freshly entered token fails,
    the token is gone from the cache and the incorrect-token error is the
    last message, but the client handle built from that token stays, so
    the next run of the command does not show the input box. *)
Theorem getAnalysisReport_fresh_token_failure r r' st pat :
  deepSource st = None -> cache st !! tokenKey = None ->
  inputBox r = Some pat -> pat <> "" ->
  truthy (userName st) = false \/ truthy (repoName st) = false
    \/ allIssuesInRepo r = None ->
  let st1 := (getAnalysisReport workspaceDirPath r st).2 in
  let st2 := (getAnalysisReport workspaceDirPath r' st1).2 in
  cache st1 !! tokenKey = None
  /\ last (calls st1) = Some (ShowErrorMessage "Incorrect personal access token.")
  /\ deepSource st1 = Some (mkDeepSource pat)
  /\ exists delta, calls st2 = (calls st1 ++ delta)%list /\ ShowInputBox ∉ delta.
Proof.
  intros Hd Hc Hr Hpat Hfail st1 st2.
  assert (st1 =
    let st0 :=
      set_cache (<[tokenKey := pat]> (cache st))
        (set_deepSource (Some (mkDeepSource pat)) (log_call ShowInputBox st)) in
    let c := calculateDiagnostics workspaceDirPath r st0 in
    log_call (ShowErrorMessage "Incorrect personal access token.")
      (set_cache (delete tokenKey (cache c.2)) c.2)) as Hst1.
  { unfold st1. rewrite (getAnalysisReport_entered r st pat) by done.
    cbv zeta. cbn [snd].
    rewrite (proj2 (calculateDiagnostics_false r _)); [done|].
    right. exact Hfail. }
  cbv zeta in Hst1.
  destruct (calculateDiagnostics_state r
    (set_cache (<[tokenKey := pat]> (cache st))
       (set_deepSource (Some (mkDeepSource pat)) (log_call ShowInputBox st))))
    as (Hd1 & _ & _ & Hc1 & _).
  assert (deepSource st1 = Some (mkDeepSource pat)) as Hhandle.
  { rewrite Hst1. cbn. rewrite Hd1. done. }
  repeat split.
  - rewrite Hst1. cbn. apply lookup_delete_eq.
  - rewrite Hst1. cbn. apply last_snoc.
  - done.
  - unfold st2. rewrite (getAnalysisReport_handle r' st1 _ Hhandle). cbn [snd].
    by destruct (calculateDiagnostics_state r' st1) as (_ & _ & _ & _ & _ & _ & ?).
Qed.

Lemma getAnalysisReport_collection r st :
  diagnosticCollection (getAnalysisReport workspaceDirPath r st).2
  = diagnosticCollection st.
Proof.
  destruct (deepSource st) as [d|] eqn:Hd.
  { rewrite (getAnalysisReport_handle r st d Hd). cbn [snd].
    by destruct (calculateDiagnostics_state r st) as (_ & _ & _ & _ & ? & _). }
  destruct (cache st !! tokenKey) as [tok|] eqn:Hc.
  { rewrite (getAnalysisReport_stored r st tok Hd Hc). cbn [snd].
    by destruct (calculateDiagnostics_state r
      (set_cache (<[tokenKey := tok]> (cache st))
         (set_deepSource (Some (mkDeepSource tok)) st)))
      as (_ & _ & _ & _ & -> & _). }
  destruct (inputBox r) as [pat|] eqn:Hr.
  2: { by rewrite getAnalysisReport_dismissed; [|done|done|left]. }
  destruct (decide (pat = "")) as [->|Hpat].
  { by rewrite getAnalysisReport_dismissed; [|done|done|right]. }
  rewrite (getAnalysisReport_entered r st pat) by done. cbv zeta. cbn [snd].
  destruct (calculateDiagnostics_state r
    (set_cache (<[tokenKey := pat]> (cache st))
       (set_deepSource (Some (mkDeepSource pat)) (log_call ShowInputBox st))))
    as (_ & _ & _ & _ & Hdc & _).
  destruct (calculateDiagnostics _ _ _).1; cbn; by rewrite Hdc.
Qed.

Lemma onDidChangeActiveTextEditor_collection editor st :
  diagnosticCollection (onDidChangeActiveTextEditor (Some editor) st).2
  = match diagnosticsInFile st !! fsPath (uri (document editor)) with
    | Some diags => {[ uri_text (uri (document editor)) := diags ]}
    | None => ∅
    end.
Proof.
  unfold onDidChangeActiveTextEditor. run_M.
  destruct (diagnosticsInFile st !! _); cbn; [|done].
  by rewrite insert_empty.
Qed.

Lemma step_collection_size ev st :
  (size (diagnosticCollection st) <= 1)%nat ->
  (size (diagnosticCollection (step workspaceDirPath st ev)) <= 1)%nat.
Proof.
  intros Hsize. unfold step, handle. destruct ev as [isRepo url|r| |editor].
  - unfold repoInfoResolved. by destruct (getRepoAndUserName isRepo url).
  - by rewrite getAnalysisReport_collection.
  - unfold openAuditTui. run_M. by destruct (auditTerminal st).
  - destruct editor as [editor|]; [|done].
    rewrite onDidChangeActiveTextEditor_collection.
    destruct (diagnosticsInFile st !! _).
    + by rewrite map_size_singleton.
    + rewrite map_size_empty. lia.
Qed.

(** C7: with no editor the listener changes nothing; with an editor, the
    collection afterwards holds exactly the entry of the new file's path,
    or nothing; and no sequence of events makes the collection hold
    diagnostics of more than one file. *)
Theorem onDidChangeActiveTextEditor_clear_then_set st :
  (onDidChangeActiveTextEditor None st).2 = st
  /\ (forall editor,
        let st' := (onDidChangeActiveTextEditor (Some editor) st).2 in
        diagnosticCollection st'
        = match diagnosticsInFile st !! fsPath (uri (document editor)) with
          | Some diags => {[ uri_text (uri (document editor)) := diags ]}
          | None => ∅
          end
        /\ diagnosticsInFile st' = diagnosticsInFile st)
  /\ (forall evs,
        (size (diagnosticCollection st) <= 1)%nat ->
        (size (diagnosticCollection (run workspaceDirPath evs st)) <= 1)%nat).
Proof.
  split; [done|]. split.
  - intros editor st'. split; [apply onDidChangeActiveTextEditor_collection|].
    unfold st', onDidChangeActiveTextEditor. run_M.
    by destruct (diagnosticsInFile st !! _).
  - intros evs. revert st. unfold run.
    induction evs as [|ev evs IH]; intros st Hsize; [done|].
    cbn [fold_left]. apply IH. by apply step_collection_size.
Qed.

End Session.

(** ** Concrete runs *)

(** C4: the code at the failing input. In a git repository whose origin
    is [https://github.com/user/repo] the final two segments have the shape
    the claim describes, with the optional [.git] left out, and
    [getRepoAndUserName] answers [None], which [activate] reads as not a
    git repository. *)
Lemma getRepoAndUserName_needs_dot_git :
  spec_final_segments "https://github.com/user/repo" "user" "repo"
  /\ getRepoAndUserName true (Some "https://github.com/user/repo") = None.
Proof.
  split; [|vm_compute; reflexivity].
  exists "https://github.com", "". repeat split; try done. by left.
Qed.

Lemma getRepoAndUserName_leftmost_dot_git_witness :
  exists pre s,
    "git@github.com:acme/app.git" = pre +:+ s
    /\ starts_with_repo s "acme" "app"
    /\ forall pre1 s1 A R, "git@github.com:acme/app.git" = pre1 +:+ s1 ->
         (String.length pre1 < String.length pre)%nat ->
         ~ starts_with_repo s1 A R.
Proof.
  apply (proj1 (getRepoAndUserName_leftmost_dot_git "git@github.com:acme/app.git")).
  vm_compute. reflexivity.
Defined.



Lemma calculateDiagnostics_failure_keeps_map_witness :
  (@calculateDiagnostics posix "/repo" badToken fetchedSession).1 = false
  /\ diagnosticsInFile
       (@calculateDiagnostics posix "/repo" badToken fetchedSession).2
     = diagnosticsInFile fetchedSession.
Proof.
  apply (@calculateDiagnostics_failure_keeps_map posix "/repo" badToken
           fetchedSession).
  right; right; right. reflexivity.
Defined.

Lemma getAnalysisReport_fresh_token_failure_witness :
  let st1 := (@getAnalysisReport posix "/repo" badToken resolvedSession).2 in
  let st2 := (@getAnalysisReport posix "/repo" goodToken st1).2 in
  cache st1 !! tokenKey = None
  /\ last (calls st1) = Some (ShowErrorMessage "Incorrect personal access token.")
  /\ deepSource st1 = Some (mkDeepSource "bad-token")
  /\ exists delta, calls st2 = (calls st1 ++ delta)%list /\ ShowInputBox ∉ delta.
Proof.
  apply (@getAnalysisReport_fresh_token_failure posix "/repo" badToken
           goodToken resolvedSession "bad-token").
  - reflexivity.
  - vm_compute. reflexivity.
  - reflexivity.
  - discriminate.
  - right; right. reflexivity.
Defined.

Lemma onDidChangeActiveTextEditor_clear_then_set_witness :
  (size (diagnosticCollection
           (@run posix "/repo"
              [ActiveTextEditorChanged (editorOn "/repo/a.py");
               ActiveTextEditorChanged (editorOn "/repo/b.py");
               ActiveTextEditorChanged None]
              fetchedSession)) <= 1)%nat.
Proof.
  apply (proj2 (proj2 (@onDidChangeActiveTextEditor_clear_then_set posix
                         "/repo" fetchedSession))).
  vm_compute. lia.
Defined.

Example activate_starts_fresh :
  activate (Some "/repo") emptyDisk = inr freshSession
  /\ activate None emptyDisk = inl "Unable to resolve current workspace path".
Proof. split; reflexivity. Qed.

(** The scenarios of section 8 of the specification. *)
Example scenario_unused_import :
  returned (@prepareDiagnostics posix "/repo" [unusedImport] emptyDisk)
  = {[ "/repo/a.py" :=
         [mkDiagnostic (mkRange (mkPosition 4 2) (mkPosition 4 10))
            "Unused import" Error] ]}.
Proof.
  apply map_eq. intros p. rewrite (@prepareDiagnostics_lookup posix).
  destruct (decide (p = "/repo/a.py")) as [->|Hp].
  - rewrite lookup_singleton_eq. vm_compute. reflexivity.
  - rewrite lookup_singleton_ne by done. unfold resolving_to.
    rewrite filter_cons_False; [done|].
    intros Heq. apply Hp. rewrite <- Heq. vm_compute. reflexivity.
Qed.

Example scenario_begin_column_zero :
  diagnosticOf (mkOccurence "a.py" 5 5 0 10 (mkIssue "Unused import"))
  = mkDiagnostic (mkRange (mkPosition 4 0) (mkPosition 4 10))
      "Unused import" Error.
Proof. reflexivity. Qed.

(** After the failed first run, the second run starts from the stale
    handle: it asks the client again and never asks for a token. *)
Example second_run_skips_the_input_box :
  let st1 := (@getAnalysisReport posix "/repo" badToken resolvedSession).2 in
  let st2 := (@getAnalysisReport posix "/repo" goodToken st1).2 in
  deepSource st2 = Some (mkDeepSource "bad-token")
  /\ calls st2
     = (calls st1
        ++ [GetAllIssuesInRepo "app" "acme";
            ShowInformationMessage "Successfully fetched issues from deepsource.io"])%list.
Proof. vm_compute. split; reflexivity. Qed.

(** The listener shows the entry of the active file and nothing else. *)
Example switch_to_file_without_entry :
  diagnosticCollection
    (@run posix "/repo"
       [ActiveTextEditorChanged (editorOn "/repo/a.py");
        ActiveTextEditorChanged (editorOn "/repo/b.py")]
       fetchedSession)
  = ∅.
Proof. vm_compute. reflexivity. Qed.

(** * Further properties *)

(** ** More on the repository identity *)

Lemma getRepoAndUserName_Some isRepo remoteUrl ri :
  getRepoAndUserName isRepo remoteUrl = Some ri ->
  exists url pre s,
    isRepo = true /\ remoteUrl = Some url /\ url = pre +:+ s
    /\ starts_with_repo s (ri_userName ri) (ri_repoName ri)
    /\ forall pre1 s1, url = pre1 +:+ s1 ->
         (String.length pre1 < String.length pre)%nat ->
         Regex.match_here githubUserAndRepoNameRegex s1 = None.
Proof.
  destruct isRepo; [|done]. destruct remoteUrl as [url|]; [|done].
  rewrite getRepoAndUserName_search.
  destruct (Regex.search _ url) as [[w caps]|] eqn:Hs; [|done].
  apply search_sound in Hs as (pre & s & -> & Hm & Hleft).
  apply match_here_repo in Hm as (A & R & HAR & [= -> ->]).
  intros [= <-]. exists (pre +:+ s), pre, s. done.
Qed.

(** X1: whenever the expression matches, the array [match] answers has
    exactly three elements, the matched text [account/repo.git] and the
    two captures, both non-empty; so the length test of
    [getRepoAndUserName] never rejects a match. *)
Theorem String_match_repo_array url matches :
  Regex.String_match url githubUserAndRepoNameRegex = Some matches ->
  exists u r,
    matches = [u +:+ "/" +:+ r +:+ ".git"; u; r]
    /\ is_segment u /\ is_segment r /\ length matches = 3%nat.
Proof.
  unfold Regex.String_match.
  destruct (Regex.search _ url) as [[w caps]|] eqn:Hs; [|done].
  apply search_sound in Hs as (pre & s & -> & Hm & _).
  apply match_here_repo in Hm as (A & R & (post & _ & HA & HR) & [= -> ->]).
  intros [= <-]. exists A, R. done.
Qed.

Lemma String_match_repo_array_witness :
  exists u r,
    ["acme/app.git"; "acme"; "app"] = [u +:+ "/" +:+ r +:+ ".git"; u; r]
    /\ is_segment u /\ is_segment r
    /\ length ["acme/app.git"; "acme"; "app"] = 3%nat.
Proof.
  apply (String_match_repo_array "git@github.com:acme/app.git").
  vm_compute. reflexivity.
Defined.

Lemma is_segment_truthy s : is_segment s -> truthy (Some s) = true.
Proof.
  intros [Hne _]. unfold truthy. apply String.eqb_neq in Hne. by rewrite Hne.
Qed.

(** X2: when the remote resolves, both names are stored and both are
    truthy, so the guard of [fetchAnalysisReport] never fails on a resolved
    identity; when it does not resolve, the session is left as it was. *)
Theorem repoInfoResolved_identity `{PathApi} workspaceDirPath isRepo remoteUrl st :
  let st' := step workspaceDirPath st (RepoInfoResolved isRepo remoteUrl) in
  match getRepoAndUserName isRepo remoteUrl with
  | Some ri =>
      userName st' = Some (ri_userName ri)
      /\ repoName st' = Some (ri_repoName ri)
      /\ truthy (userName st') = true /\ truthy (repoName st') = true
  | None => st' = st
  end.
Proof.
  unfold step, handle, repoInfoResolved.
  destruct (getRepoAndUserName isRepo remoteUrl) as [ri|] eqn:Hri; [|done].
  apply getRepoAndUserName_Some
    in Hri as (url & pre & s & _ & _ & _ & (post & _ & Hu & Hr) & _).
  cbn. repeat split; by apply is_segment_truthy.
Qed.

Lemma string_app_snoc_length pre c :
  String.length (pre +:+ String c "") = S (String.length pre).
Proof. rewrite string_app_length. simpl. lia. Qed.

(** X3: the account name is never cut out of a longer word: the
    character before the captured account, if there is one, is neither a
    word character nor a hyphen. *)
Theorem getRepoAndUserName_whole_runs url u r :
  getRepoAndUserName true (Some url) = Some (mkRepoInfo u r) ->
  exists pre post,
    url = pre +:+ u +:+ "/" +:+ r +:+ ".git" +:+ post
    /\ forall pre' c, pre = pre' +:+ String c "" ->
         Regex.word_or_hyphen c = false.
Proof.
  intros Hri.
  apply getRepoAndUserName_Some in Hri
    as (url' & pre & s & _ & [= <-] & -> & (post & -> & Hu & Hr) & Hleft).
  cbn [ri_userName ri_repoName] in *.
  exists pre, post. split; [done|]. intros pre' c ->.
  destruct (Regex.word_or_hyphen c) eqn:Hc; [|done].
  assert (Regex.match_here githubUserAndRepoNameRegex
            (String c u +:+ "/" +:+ r +:+ ".git" +:+ post) = None) as Hnone.
  { apply (Hleft pre').
    - by rewrite string_app_assoc.
    - rewrite string_app_snoc_length. lia. }
  assert (starts_with_repo (String c u +:+ "/" +:+ r +:+ ".git" +:+ post)
            (String c u) r) as Hstart.
  { exists post. split; [done|]. split; [|done].
    destruct Hu as [_ Hu]. split; [done|]. simpl. by rewrite Hc, Hu. }
  apply starts_with_repo_match in Hstart. congruence.
Qed.

Lemma getRepoAndUserName_whole_runs_witness :
  exists pre post,
    "https://x.org/my.user/repo.git" = pre +:+ "user" +:+ "/" +:+ "repo" +:+ ".git" +:+ post
    /\ forall pre' c, pre = pre' +:+ String c "" ->
         Regex.word_or_hyphen c = false.
Proof.
  apply (getRepoAndUserName_whole_runs "https://x.org/my.user/repo.git").
  vm_compute. reflexivity.
Defined.

(** X4: whatever follows [.git] is ignored: a remote that starts with
    [account/repo.git] resolves to that account and repository whatever
    text comes after. *)
Theorem getRepoAndUserName_ignores_suffix u r post :
  is_segment u -> is_segment r ->
  getRepoAndUserName true (Some (u +:+ "/" +:+ r +:+ ".git" +:+ post))
  = Some (mkRepoInfo u r).
Proof.
  intros Hu Hr. rewrite getRepoAndUserName_search.
  rewrite <- (string_app_nil_l (u +:+ _)).
  rewrite (search_found _ "" _ (u +:+ "/" +:+ r +:+ ".git", [u; r])); [done| |].
  - apply starts_with_repo_match. by exists post.
  - intros pre1 s1 _ Hlen. simpl in Hlen. lia.
Qed.

Lemma getRepoAndUserName_ignores_suffix_witness :
  getRepoAndUserName true (Some ("a" +:+ "/" +:+ "b" +:+ ".git" +:+ "hub.io/x"))
  = Some (mkRepoInfo "a" "b").
Proof.
  apply (getRepoAndUserName_ignores_suffix "a" "b" "hub.io/x"); by split.
Defined.

(** ** More on the translator *)

Lemma size_addOccurrence (m : DiagnosticMap) o :
  (size (addOccurrence m o) <= S (size m))%nat.
Proof.
  unfold addOccurrence.
  destruct (m !! path o) eqn:Hk; rewrite map_size_insert, Hk; simpl; lia.
Qed.

Lemma size_fold_addOccurrence occs (m : DiagnosticMap) :
  (size (fold_left addOccurrence occs m) <= length occs + size m)%nat.
Proof.
  revert m. induction occs as [|o occs IH]; intros m; simpl; [lia|].
  pose proof (IH (addOccurrence m o)). pose proof (size_addOccurrence m o). lia.
Qed.

Section TranslatorEffects.
Context `{PathApi}.
Variable workspaceDirPath : string.


(** X7: no entry of the returned map is an empty array, and the map has
    at most as many entries as there are occurrences. *)
Theorem prepareDiagnostics_entries_nonempty occs fs :
  (forall p,
     returned (prepareDiagnostics workspaceDirPath occs fs) !! p <> Some [])
  /\ (size (returned (prepareDiagnostics workspaceDirPath occs fs))
      <= length occs)%nat.
Proof.
  split.
  - intros p. rewrite prepareDiagnostics_lookup.
    by destruct (diagnosticOf <$> resolving_to workspaceDirPath p occs).
  - unfold prepareDiagnostics. cbn [returned].
    pose proof (size_fold_addOccurrence
      ((fun o => set_path o (path_join workspaceDirPath (path o))) <$> occs) ∅)
      as Hsize.
    rewrite length_fmap, map_size_empty in Hsize. lia.
Qed.

End TranslatorEffects.

(** ** More on the session *)

Section Fetch.
Context `{PathApi}.
Variable workspaceDirPath : string.

#[local] Arguments calculateDiagnostics : simpl never.

Lemma fetchAnalysisReport_returns r st u n occs :
  fetch_returns r st u n occs ->
  fetchAnalysisReport r st
  = (Some occs, log_call (GetAllIssuesInRepo n u) st).
Proof.
  intros ([d Hd] & Hu & Hune & Hn & Hnne & Hr).
  unfold fetchAnalysisReport. run_M. rewrite Hd, Hu, Hn, Hr.
  apply String.eqb_neq in Hune, Hnne. rewrite Hune, Hnne. done.
Qed.

Lemma fetchAnalysisReport_silent r st :
  deepSource st = None \/ truthy (userName st) = false
    \/ truthy (repoName st) = false ->
  fetchAnalysisReport r st = (None, st).
Proof.
  unfold fetchAnalysisReport. run_M.
  destruct (deepSource st) as [d|], (userName st) as [u|], (repoName st) as [n|];
    cbn; try done; try (intros [?|[?|?]]; done).
  intros [?|[->| ->]]; [done| |]; cbn; [done|].
  by rewrite andb_false_r.
Qed.


Lemma calculateDiagnostics_silent r st :
  deepSource st = None \/ truthy (userName st) = false
    \/ truthy (repoName st) = false ->
  calculateDiagnostics workspaceDirPath r st = (false, st).
Proof.
  intros Hno. rewrite calculateDiagnostics_eq.
  by rewrite (fetchAnalysisReport_silent r st Hno).
Qed.


(** X11: without a handle or without a truthy account or repository
    name, the fetch fails silently: no request, no message, and the session
    is exactly as before. *)
Theorem calculateDiagnostics_silent_failure r st :
  deepSource st = None \/ truthy (userName st) = false
    \/ truthy (repoName st) = false ->
  fetchAnalysisReport r st = (None, st)
  /\ calculateDiagnostics workspaceDirPath r st = (false, st).
Proof.
  intros Hno. split.
  - by apply fetchAnalysisReport_silent.
  - by apply calculateDiagnostics_silent.
Qed.

End Fetch.

Section Command.
Context `{PathApi}.
Variable workspaceDirPath : string.

#[local] Arguments calculateDiagnostics : simpl never.

Lemma fetchAnalysisReport_fetch_calls r st :
  exists delta,
    calls (fetchAnalysisReport r st).2 = (calls st ++ delta)%list
    /\ Forall (fun c => is_fetch_call c = true) delta.
Proof.
  unfold fetchAnalysisReport. run_M.
  destruct (deepSource st) as [d|], (userName st) as [u|], (repoName st) as [n|];
    cbn; try (exists []; by rewrite app_nil_r).
  destruct (negb (String.eqb u "")), (negb (String.eqb n ""));
    cbn; try (exists []; by rewrite app_nil_r).
  destruct (allIssuesInRepo r) as [occs|]; cbn.
  - eexists. split; [reflexivity|]. by repeat constructor.
  - eexists. split; [by rewrite <- app_assoc|]. by repeat constructor.
Qed.

Lemma calculateDiagnostics_fetch_calls r st :
  exists delta,
    calls (calculateDiagnostics workspaceDirPath r st).2
    = (calls st ++ delta)%list
    /\ Forall (fun c => is_fetch_call c = true) delta.
Proof.
  destruct (fetchAnalysisReport_fetch_calls r st) as (delta & Hcalls & Hdelta).
  rewrite calculateDiagnostics_eq.
  destruct ((fetchAnalysisReport r st).1) as [occs|]; cbn.
  - exists (delta ++ [ShowInformationMessage successMessage])%list.
    split; [by rewrite Hcalls, <- app_assoc|].
    apply Forall_app. split; [done|]. by repeat constructor.
  - by exists delta.
Qed.

(** What a run of the fetch command leaves alone, and the calls it makes. *)
Lemma getAnalysisReport_frame r st :
  let st' := (getAnalysisReport workspaceDirPath r st).2 in
  userName st' = userName st /\ repoName st' = repoName st
  /\ auditTerminal st' = auditTerminal st
  /\ exists delta, calls st' = (calls st ++ delta)%list
       /\ Forall (fun c => is_fetch_call c = true) delta.
Proof.
  cbv zeta. destruct (deepSource st) as [d|] eqn:Hd.
  { rewrite (getAnalysisReport_handle _ r st d Hd). cbn [snd].
    destruct (calculateDiagnostics_state workspaceDirPath r st)
      as (_ & Hu & Hn & _ & _ & Ha & _).
    repeat split; try done. apply calculateDiagnostics_fetch_calls. }
  destruct (cache st !! tokenKey) as [tok|] eqn:Hc.
  { rewrite (getAnalysisReport_stored _ r st tok Hd Hc). cbn [snd].
    set (st0 := set_cache _ _).
    destruct (calculateDiagnostics_state workspaceDirPath r st0)
      as (_ & Hu & Hn & _ & _ & Ha & _).
    repeat split; try done. apply (calculateDiagnostics_fetch_calls r st0). }
  assert (Forall (fun c => is_fetch_call c = true) [ShowInputBox]) as Hbox
    by (by repeat constructor).
  destruct (inputBox r) as [pat|] eqn:Hr.
  2: { rewrite getAnalysisReport_dismissed by (done || by left).
       repeat split. by exists [ShowInputBox]. }
  destruct (decide (pat = "")) as [->|Hpat].
  { rewrite getAnalysisReport_dismissed by (done || by right).
    repeat split. by exists [ShowInputBox]. }
  rewrite (getAnalysisReport_entered _ r st pat) by done. cbv zeta. cbn [snd].
  set (st0 := set_cache _ _).
  destruct (calculateDiagnostics_state workspaceDirPath r st0)
    as (_ & Hu & Hn & _ & _ & Ha & _).
  destruct (calculateDiagnostics_fetch_calls r st0) as (delta & Hcalls & Hdelta).
  assert (calls st0 = (calls st ++ [ShowInputBox])%list) as Hst0 by done.
  destruct (calculateDiagnostics _ _ _).1; cbn;
    rewrite ?Hu, ?Hn, ?Ha, Hcalls, Hst0; repeat split.
  - exists (ShowInputBox :: delta). split; [by rewrite <- app_assoc|].
    by constructor.
  - exists (ShowInputBox :: delta ++ [ShowErrorMessage incorrectTokenMessage])%list.
    split; [by rewrite <- !app_assoc|].
    constructor; [done|]. apply Forall_app. split; [done|]. by repeat constructor.
Qed.

(** *** The handle, once built, stays *)

Lemma step_keeps_handle ev st d :
  deepSource st = Some d ->
  deepSource (step workspaceDirPath st ev) = Some d
  /\ exists delta,
       calls (step workspaceDirPath st ev) = (calls st ++ delta)%list
       /\ ShowInputBox ∉ delta.
Proof.
  intros Hd. unfold step, handle. destruct ev as [isRepo url|r| |editor].
  - unfold repoInfoResolved.
    destruct (getRepoAndUserName isRepo url); cbn;
      (split; [done|]; exists []; split;
         [by rewrite app_nil_r|apply not_elem_of_nil]).
  - rewrite (getAnalysisReport_handle _ r st d Hd). cbn [snd].
    destruct (calculateDiagnostics_state workspaceDirPath r st)
      as (Hd' & _ & _ & _ & _ & _ & Hcalls).
    split; [by rewrite Hd'|done].
  - unfold openAuditTui. run_M. split; [by destruct (auditTerminal st)|].
    destruct (auditTerminal st); cbn; eexists;
      (split; [by rewrite <- ?app_assoc|]);
      intros Hin; repeat (apply elem_of_cons in Hin as [Hin|Hin]; [done|]);
      by apply elem_of_nil in Hin.
  - destruct editor as [editor|]; cbn.
    + unfold onDidChangeActiveTextEditor. run_M.
      destruct (diagnosticsInFile st !! _); cbn;
        (split; [done|]; exists []; split;
           [by rewrite app_nil_r|apply not_elem_of_nil]).
    + split; [done|]. exists []. split;
        [by rewrite app_nil_r|apply not_elem_of_nil].
Qed.

(** X12: once a client handle exists, no event replaces or removes it,
    and no later run shows the input box. *)
Theorem run_keeps_handle evs st d :
  deepSource st = Some d ->
  deepSource (run workspaceDirPath evs st) = Some d
  /\ exists delta,
       calls (run workspaceDirPath evs st) = (calls st ++ delta)%list
       /\ ShowInputBox ∉ delta.
Proof.
  revert st. unfold run. induction evs as [|ev evs IH]; intros st Hd.
  - split; [done|]. exists []. split; [by rewrite app_nil_r|apply not_elem_of_nil].
  - cbn [fold_left].
    destruct (step_keeps_handle ev st d Hd) as (Hd1 & delta1 & Hc1 & Hn1).
    destruct (IH _ Hd1) as (Hd2 & delta2 & Hc2 & Hn2).
    split; [done|]. exists (delta1 ++ delta2)%list.
    split; [by rewrite Hc2, Hc1, <- app_assoc|].
    intros Hin. apply elem_of_app in Hin as [Hin|Hin]; done.
Qed.

(** *** The cache never holds a token without a handle *)

Lemma step_token_backed ev st :
  token_backed st -> token_backed (step workspaceDirPath st ev).
Proof.
  intros Hinv. unfold step, handle. destruct ev as [isRepo url|r| |editor].
  - unfold repoInfoResolved. by destruct (getRepoAndUserName isRepo url).
  - destruct (deepSource st) as [d|] eqn:Hd.
    { rewrite (getAnalysisReport_handle _ r st d Hd). cbn [snd].
      destruct (calculateDiagnostics_state workspaceDirPath r st)
        as (Hd' & _ & _ & Hc' & _).
      intros t. rewrite Hd', Hc', Hd. intros Ht. by rewrite <- Hd, (Hinv t Ht). }
    destruct (cache st !! tokenKey) as [tok|] eqn:Hc.
    { rewrite (getAnalysisReport_stored _ r st tok Hd Hc). cbn [snd].
      set (st0 := set_cache _ _).
      destruct (calculateDiagnostics_state workspaceDirPath r st0)
        as (Hd' & _ & _ & Hc' & _).
      intros t. rewrite Hd', Hc'. unfold st0. cbn.
      rewrite lookup_insert_eq. by intros [= <-]. }
    destruct (inputBox r) as [pat|] eqn:Hr.
    2: { rewrite getAnalysisReport_dismissed by (done || by left). done. }
    destruct (decide (pat = "")) as [->|Hpat].
    { rewrite getAnalysisReport_dismissed by (done || by right). done. }
    rewrite (getAnalysisReport_entered _ r st pat) by done. cbv zeta. cbn [snd].
    set (st0 := set_cache _ _).
    destruct (calculateDiagnostics_state workspaceDirPath r st0)
      as (Hd' & _ & _ & Hc' & _).
    destruct (calculateDiagnostics _ _ _).1; intros t; cbn.
    + rewrite Hd', Hc'. unfold st0. cbn.
      rewrite lookup_insert_eq. by intros [= <-].
    + by rewrite lookup_delete_eq.
  - unfold openAuditTui. run_M. by destruct (auditTerminal st).
  - destruct editor as [editor|]; [|done].
    unfold onDidChangeActiveTextEditor. run_M.
    by destruct (diagnosticsInFile st !! _).
Qed.

(** X13: in every state reachable from [activate], a token in the cache
    is the token of the current handle; so the cache never holds a token
    while there is no handle, and the branch that reads a stored token is
    never taken. *)
Theorem run_token_backed wd disk st0 evs :
  activate wd disk = inr st0 ->
  token_backed (run workspaceDirPath evs st0)
  /\ (deepSource (run workspaceDirPath evs st0) = None ->
      cache (run workspaceDirPath evs st0) !! tokenKey = None).
Proof.
  intros Hact.
  assert (token_backed (run workspaceDirPath evs st0)) as Hinv.
  { assert (token_backed st0) as H0.
    { unfold activate in Hact. destruct (truthy wd); [|done].
      injection Hact as <-. intros t. cbn. by rewrite lookup_empty. }
    clear Hact. revert st0 H0. unfold run.
    induction evs as [|ev evs IH]; intros st0 H0; [done|].
    cbn [fold_left]. apply IH. by apply step_token_backed. }
  split; [done|]. intros Hd.
  destruct (cache _ !! tokenKey) as [t|] eqn:Ht; [|done].
  rewrite (Hinv t Ht) in Hd. done.
Qed.

(** *** The input box *)

(** X14: while no handle and no token exist, each run whose input box is
    dismissed or answered with the empty text only shows the input box
    once more; nothing else in the session changes. *)
Theorem run_dismissed_prompts r n st :
  deepSource st = None -> cache st !! tokenKey = None ->
  inputBox r = None \/ inputBox r = Some "" ->
  run workspaceDirPath (replicate n (GetAnalysisReport r)) st
  = Nat.iter n (log_call ShowInputBox) st.
Proof.
  intros Hd Hc Hr. revert st Hd Hc. unfold run.
  induction n as [|n IH]; intros st Hd Hc; [done|].
  cbn [replicate fold_left]. unfold step at 2, handle.
  rewrite getAnalysisReport_dismissed by done. cbn [snd].
  rewrite IH by done. by rewrite <- Nat.iter_succ_r.
Qed.

(** X16: when the repository identity is not resolved, a freshly entered
    token is reported as incorrect and forgotten without any request to the
    service; the handle built from it stays and the map is untouched. *)
Theorem getAnalysisReport_unresolved_identity r st pat :
  deepSource st = None -> cache st !! tokenKey = None ->
  inputBox r = Some pat -> pat <> "" ->
  truthy (userName st) = false \/ truthy (repoName st) = false ->
  let st' := (getAnalysisReport workspaceDirPath r st).2 in
  calls st'
  = (calls st ++ [ShowInputBox; ShowErrorMessage incorrectTokenMessage])%list
  /\ cache st' !! tokenKey = None
  /\ deepSource st' = Some (mkDeepSource pat)
  /\ diagnosticsInFile st' = diagnosticsInFile st.
Proof.
  intros Hd Hc Hr Hpat Hid. cbv zeta.
  rewrite (getAnalysisReport_entered _ r st pat) by done. cbv zeta. cbn [snd].
  rewrite calculateDiagnostics_silent by (right; exact Hid).
  cbn [fst snd deepSource cache diagnosticsInFile calls log_call
       set_cache set_deepSource].
  repeat split.
  - by rewrite <- !app_assoc.
  - apply lookup_delete_eq.
Qed.

(** *** The display *)

(** X17: only a focus change repaints: fetches, identity resolution and
    the audit command leave the displayed diagnostics as they are. *)
Theorem run_without_focus_keeps_display evs st :
  Forall (fun ev => is_focus_event ev = false) evs ->
  diagnosticCollection (run workspaceDirPath evs st) = diagnosticCollection st.
Proof.
  revert st. unfold run. induction evs as [|ev evs IH]; intros st Hevs; [done|].
  apply Forall_cons in Hevs as [Hev Hevs]. cbn [fold_left].
  rewrite IH by done. unfold step, handle.
  destruct ev as [isRepo url|r| |editor]; [| | |done].
  - unfold repoInfoResolved. by destruct (getRepoAndUserName isRepo url).
  - apply getAnalysisReport_collection.
  - unfold openAuditTui. run_M. by destruct (auditTerminal st).
Qed.

(** X18: the focus listener is idempotent, and it changes nothing of the
    session but the displayed collection. *)
Theorem onDidChangeActiveTextEditor_idempotent editor st :
  let st1 := (onDidChangeActiveTextEditor editor st).2 in
  (onDidChangeActiveTextEditor editor st1).2 = st1
  /\ set_diagnosticCollection (diagnosticCollection st) st1 = st.
Proof.
  destruct editor as [editor|]; [|by destruct st].
  unfold onDidChangeActiveTextEditor. run_M.
  destruct (diagnosticsInFile st !! _) as [diags|] eqn:Hm; cbn.
  - rewrite Hm. cbn. split; [done|]. by destruct st.
  - rewrite Hm. cbn. split; [done|]. by destruct st.
Qed.

(** *** The audit terminal *)

Lemma count_calls_app p l1 l2 :
  count_calls p (l1 ++ l2) = (count_calls p l1 + count_calls p l2)%nat.
Proof. unfold count_calls. by rewrite filter_app, length_app. Qed.

Lemma count_calls_cons p c l :
  count_calls p (c :: l) = ((if p c then 1 else 0) + count_calls p l)%nat.
Proof.
  unfold count_calls. destruct (p c) eqn:Hc.
  - by rewrite filter_cons_True.
  - rewrite filter_cons_False; [done|]. by rewrite Hc.
Qed.

Lemma count_calls_fetch p delta :
  (forall c, is_fetch_call c = true -> p c = false) ->
  Forall (fun c => is_fetch_call c = true) delta ->
  count_calls p delta = 0%nat.
Proof.
  intros Hp Hdelta. unfold count_calls.
  induction Hdelta as [|c delta Hc _ IH]; [done|].
  rewrite filter_cons_False; [done|]. rewrite (Hp c Hc). done.
Qed.

Lemma live_terminals_log_call c st :
  live_terminals (log_call c st)
  = live_terminals st + (if is_CreateTerminal c then 1 else 0)
    - (if is_DisposeTerminal c then 1 else 0).
Proof.
  unfold live_terminals. cbn [calls log_call].
  rewrite !count_calls_app, !count_calls_cons.
  destruct (is_CreateTerminal c), (is_DisposeTerminal c); cbn; lia.
Qed.

Lemma openAuditTui_eq st :
  openAuditTui st
  = (tt,
     log_call ShowTerminal
       (set_auditTerminal true
          (log_call (CreateTerminal "DeepSource audit")
             (if auditTerminal st then log_call DisposeTerminal st else st)))).
Proof. unfold openAuditTui. run_M. by destruct (auditTerminal st). Qed.

Lemma step_live_terminals ev st :
  live_terminals st = (if auditTerminal st then 1 else 0) ->
  live_terminals (step workspaceDirPath st ev)
  = (if auditTerminal (step workspaceDirPath st ev) then 1 else 0).
Proof.
  intros Hinv. unfold step, handle. destruct ev as [isRepo url|r| |editor].
  - unfold repoInfoResolved. by destruct (getRepoAndUserName isRepo url).
  - destruct (getAnalysisReport_frame r st)
      as (_ & _ & Ha & delta & Hcalls & Hdelta).
    rewrite Ha, <- Hinv. unfold live_terminals.
    rewrite Hcalls, !count_calls_app.
    rewrite !(count_calls_fetch _ delta) by (done || by intros []).
    lia.
  - rewrite openAuditTui_eq. cbn [snd].
    rewrite live_terminals_log_call. cbn [auditTerminal log_call set_auditTerminal].
    change (live_terminals (set_auditTerminal true ?s)) with (live_terminals s).
    rewrite live_terminals_log_call.
    destruct (auditTerminal st); [rewrite live_terminals_log_call|];
      cbn [is_CreateTerminal is_DisposeTerminal]; lia.
  - destruct editor as [editor|]; [|done].
    unfold onDidChangeActiveTextEditor. run_M.
    by destruct (diagnosticsInFile st !! _).
Qed.

(** X20: in every state reachable from [activate], the terminals created
    and not yet disposed of are one if the session holds an audit terminal
    and none otherwise. *)
Theorem run_live_terminals wd disk st0 evs :
  activate wd disk = inr st0 ->
  live_terminals (run workspaceDirPath evs st0)
  = (if auditTerminal (run workspaceDirPath evs st0) then 1 else 0).
Proof.
  intros Hact.
  assert (live_terminals st0 = (if auditTerminal st0 then 1 else 0)) as H0.
  { unfold activate in Hact. destruct (truthy wd); [|done].
    by injection Hact as <-. }
  clear Hact. revert st0 H0. unfold run.
  induction evs as [|ev evs IH]; intros st0 H0; [done|].
  cbn [fold_left]. apply IH. by apply step_live_terminals.
Qed.

End Command.


Lemma calculateDiagnostics_silent_failure_witness :
  @calculateDiagnostics posix "/repo" goodToken freshSession
  = (false, freshSession).
Proof.
  apply (@calculateDiagnostics_silent_failure posix "/repo" goodToken
           freshSession).
  left. reflexivity.
Defined.

Lemma run_keeps_handle_witness :
  deepSource
    (@run posix "/repo"
       [GetAnalysisReport badToken; OpenAuditTui;
        RepoInfoResolved false None; GetAnalysisReport dismissed]
       fetchedSession)
  = Some (mkDeepSource "good-token").
Proof.
  apply (@run_keeps_handle posix "/repo"). reflexivity.
Defined.

Lemma run_token_backed_witness :
  token_backed
    (@run posix "/repo"
       [GetAnalysisReport badToken; GetAnalysisReport goodToken] freshSession).
Proof.
  apply (@run_token_backed posix "/repo" (Some "/repo") emptyDisk).
  reflexivity.
Defined.

Lemma run_dismissed_prompts_witness :
  @run posix "/repo" (replicate 3 (GetAnalysisReport dismissed)) resolvedSession
  = Nat.iter 3 (log_call ShowInputBox) resolvedSession.
Proof.
  apply (@run_dismissed_prompts posix "/repo" dismissed 3 resolvedSession).
  - reflexivity.
  - vm_compute. reflexivity.
  - left. reflexivity.
Defined.

Lemma getAnalysisReport_unresolved_identity_witness :
  calls (@getAnalysisReport posix "/repo" badToken freshSession).2
  = (calls freshSession
     ++ [ShowInputBox; ShowErrorMessage incorrectTokenMessage])%list.
Proof.
  apply (@getAnalysisReport_unresolved_identity posix "/repo" badToken
           freshSession "bad-token").
  - reflexivity.
  - vm_compute. reflexivity.
  - reflexivity.
  - discriminate.
  - left. reflexivity.
Defined.

Lemma run_without_focus_keeps_display_witness :
  diagnosticCollection
    (@run posix "/repo"
       [GetAnalysisReport (mkReplies None (Some [])); OpenAuditTui]
       displayedSession)
  = diagnosticCollection displayedSession.
Proof.
  apply (@run_without_focus_keeps_display posix "/repo").
  repeat constructor.
Defined.

Lemma run_live_terminals_witness :
  live_terminals
    (@run posix "/repo"
       [OpenAuditTui; GetAnalysisReport badToken; OpenAuditTui] freshSession)
  = (if auditTerminal
          (@run posix "/repo"
             [OpenAuditTui; GetAnalysisReport badToken; OpenAuditTui]
             freshSession)
     then 1 else 0).
Proof.
  apply (@run_live_terminals posix "/repo" (Some "/repo") emptyDisk).
  reflexivity.
Defined.

(** The display goes stale: a fetch that empties the map leaves the
    diagnostics of the focused file on screen. *)
Example display_is_stale_after_fetch :
  let st :=
    @run posix "/repo" [GetAnalysisReport (mkReplies None (Some []))]
      displayedSession in
  diagnosticsInFile st = ∅
  /\ diagnosticCollection st
     = {[ "file:///repo/a.py" := [diagnosticOf unusedImport] ]}.
Proof. vm_compute. split; reflexivity. Qed.

(** * The translation with the host's checks *)

Lemma new_Position_inr l c pos :
  Checked.new_Position l c = inr pos <->
  0 <= l /\ 0 <= c /\ pos = mkPosition l c.
Proof.
  unfold Checked.new_Position.
  destruct (Z.ltb_spec l 0), (Z.ltb_spec c 0); split;
    try (intros [= <-]); try (intros (? & ? & ->)); (done || lia).
Qed.

Lemma new_Position_inl l c e :
  Checked.new_Position l c = inl e -> l < 0 \/ c < 0.
Proof.
  unfold Checked.new_Position.
  destruct (Z.ltb_spec l 0), (Z.ltb_spec c 0); (done || lia).
Qed.

Lemma checked_diagnosticOf_inr o d :
  Checked.diagnosticOf o = inr d <->
  accepted o /\ d = diagnosticOfAccepted o.
Proof.
  unfold Checked.diagnosticOf, accepted, diagnosticOfAccepted,
    Checked.new_Diagnostic.
  assert (forall c, c = (if beginColumn o >? 0 then beginColumn o - 1
                         else beginColumn o) ->
                    (0 <= c <-> 0 <= beginColumn o)) as Hcol.
  { intros c ->. destruct (Z.gtb_spec (beginColumn o) 0); lia. }
  specialize (Hcol _ eq_refl).
  destruct (Checked.new_Position (beginLine o - 1) _) as [e|startPos] eqn:Hs.
  { split; [done|]. intros ((Hbl & Hbc & _) & _).
    apply new_Position_inl in Hs. lia. }
  apply new_Position_inr in Hs as (Hbl & Hbc & ->).
  destruct (Checked.new_Position (endLine o - 1) _) as [e|endPos] eqn:He.
  { split; [done|]. intros ((_ & _ & Hel & Hec & _) & _).
    apply new_Position_inl in He. lia. }
  apply new_Position_inr in He as (Hel & Hec & ->).
  destruct (String.eqb_spec (title (issue o)) "") as [Ht|Ht].
  { split; [done|]. by intros ((_ & _ & _ & _ & ?) & _). }
  split.
  - intros [= <-]. split; [|done]. repeat split; (lia || done).
  - by intros (_ & ->).
Qed.

Lemma checked_diagnosticOf_inl o :
  ~ accepted o -> exists e, Checked.diagnosticOf o = inl e.
Proof.
  intros Hno. destruct (Checked.diagnosticOf o) as [e|d] eqn:Hd; [by exists e|].
  apply checked_diagnosticOf_inr in Hd as [Hacc _]. done.
Qed.

Lemma addOccurrences_inr occs m m' :
  Checked.addOccurrences occs m = inr m' <->
  Forall accepted occs /\ m' = fold_left addDiagnostic occs m.
Proof.
  revert m. induction occs as [|o occs IH]; intros m; cbn [Checked.addOccurrences fold_left].
  - split; [by intros [= <-]|by intros (_ & ->)].
  - destruct (Checked.diagnosticOf o) as [e|d] eqn:Hd.
    + split; [done|]. intros (Hall & _). apply Forall_cons in Hall as [Ho _].
      assert (Checked.diagnosticOf o = inr (diagnosticOfAccepted o)) as Hd'
        by (by apply checked_diagnosticOf_inr).
      congruence.
    + apply checked_diagnosticOf_inr in Hd as [Ho ->].
      rewrite IH. unfold addDiagnostic. split.
      * intros (Hall & ->). split; [by constructor|done].
      * intros (Hall & ->). apply Forall_cons in Hall as [_ Hall]. done.
Qed.

Lemma fold_addDiagnostic_lookup occs (m : DiagnosticMap) p :
  fold_left addDiagnostic occs m !! p =
  match m !! p with
  | Some diags =>
      Some (diags
            ++ (diagnosticOfAccepted <$> filter (fun o => path o = p) occs))%list
  | None => entry_of (diagnosticOfAccepted <$> filter (fun o => path o = p) occs)
  end.
Proof.
  revert m. induction occs as [|o occs IH]; intros m; simpl.
  - destruct (m !! p); [by rewrite app_nil_r|done].
  - rewrite IH. unfold addDiagnostic.
    destruct (decide (path o = p)) as [Heq|Hne].
    + rewrite filter_cons_True by done. subst p.
      destruct (m !! path o) as [diags|].
      * rewrite lookup_insert_eq, fmap_cons. by rewrite <- app_assoc.
      * rewrite lookup_insert_eq. done.
    + rewrite filter_cons_False by done.
      destruct (m !! path o) as [diags|]; by rewrite lookup_insert_ne.
Qed.

Lemma total_diagnostics_addDiagnostic m o :
  total_diagnostics (addDiagnostic m o) = S (total_diagnostics m).
Proof.
  unfold addDiagnostic. destruct (m !! path o) as [diags|] eqn:Hk.
  - pose proof (total_diagnostics_update m (path o) diags
                  (diags ++ [diagnosticOfAccepted o]) Hk) as H.
    rewrite length_app in H. simpl in H. lia.
  - by rewrite total_diagnostics_insert.
Qed.

Lemma total_diagnostics_fold_addDiagnostic occs m :
  total_diagnostics (fold_left addDiagnostic occs m)
  = (length occs + total_diagnostics m)%nat.
Proof.
  revert m. induction occs as [|o occs IH]; intros m; simpl; [done|].
  rewrite IH, total_diagnostics_addDiagnostic. lia.
Qed.

Section CheckedTranslator.
Context `{PathApi}.
Variable workspaceDirPath : string.

Let rewritten (occs : list Occurence) : list Occurence :=
  (fun o => set_path o (path_join workspaceDirPath (path o))) <$> occs.

Lemma accepted_rewritten occs :
  Forall accepted (rewritten occs) <-> Forall accepted occs.
Proof.
  unfold rewritten. rewrite Forall_fmap. apply Forall_proper; [|done].
  intros o. done.
Qed.

(** When the call returns, and what it then leaves behind. *)
Lemma checked_prepareDiagnostics_inr occs fs faults prep :
  Checked.prepareDiagnostics workspaceDirPath occs fs faults = inr prep <->
  (existsSync fs (path_join workspaceDirPath ".deepsource") = true
   \/ mkdir_fault faults = None)
  /\ Forall accepted occs /\ write_fault faults = None
  /\ returned prep = fold_left addDiagnostic (rewritten occs) ∅
  /\ occurrences_after prep = rewritten occs
  /\ fs_after prep
     = fs_after (prepareDiagnostics workspaceDirPath occs fs).
Proof.
  unfold Checked.prepareDiagnostics, prepareDiagnostics.
  cbn [fs_after]. fold (rewritten occs).
  destruct (existsSync fs _) eqn:Hex.
  - destruct (Checked.addOccurrences (rewritten occs) ∅) as [e|m] eqn:Hm.
    + split; [done|]. intros (_ & Hacc & _).
      apply (proj2 (accepted_rewritten occs)) in Hacc.
      assert (Checked.addOccurrences (rewritten occs) ∅
              = inr (fold_left addDiagnostic (rewritten occs) ∅)) as Hm'
        by (by apply addOccurrences_inr).
      congruence.
    + apply addOccurrences_inr in Hm as [Hacc ->].
      apply (proj1 (accepted_rewritten occs)) in Hacc.
      destruct (write_fault faults) as [e|]; [split; [done|]; by intros (_&_&?&_)|].
      split.
      * intros [= <-]. cbn. repeat split; (done || by left).
      * intros (_ & _ & _ & Hr & Ho & Hf). destruct prep. cbn in *. by subst.
  - destruct (mkdir_fault faults) as [e|] eqn:Hmk.
    { split; [done|]. by intros ([?|?] & _). }
    destruct (Checked.addOccurrences (rewritten occs) ∅) as [e|m] eqn:Hm.
    + split; [done|]. intros (_ & Hacc & _).
      apply (proj2 (accepted_rewritten occs)) in Hacc.
      assert (Checked.addOccurrences (rewritten occs) ∅
              = inr (fold_left addDiagnostic (rewritten occs) ∅)) as Hm'
        by (by apply addOccurrences_inr).
      congruence.
    + apply addOccurrences_inr in Hm as [Hacc ->].
      apply (proj1 (accepted_rewritten occs)) in Hacc.
      destruct (write_fault faults) as [e|]; [split; [done|]; by intros (_&_&?&_)|].
      split.
      * intros [= <-]. cbn. repeat split; (done || by right).
      * intros (_ & _ & _ & Hr & Ho & Hf). destruct prep. cbn in *. by subst.
Qed.

Lemma checked_prepareDiagnostics_lookup occs fs faults prep p :
  Checked.prepareDiagnostics workspaceDirPath occs fs faults = inr prep ->
  returned prep !! p
  = entry_of (diagnosticOfAccepted <$> resolving_to workspaceDirPath p occs).
Proof.
  intros Hprep.
  apply checked_prepareDiagnostics_inr in Hprep as (_ & _ & _ & -> & _).
  rewrite fold_addDiagnostic_lookup, lookup_empty. f_equal.
  unfold rewritten, resolving_to. clear.
  induction occs as [|o occs IH]; [done|].
  rewrite fmap_cons. cbn [path set_path].
  destruct (decide (path_join workspaceDirPath (path o) = p)).
  - rewrite !filter_cons_True by done. rewrite !fmap_cons, IH. done.
  - rewrite !filter_cons_False by done. done.
Qed.

Lemma checked_prepareDiagnostics_default occs fs faults prep p :
  Checked.prepareDiagnostics workspaceDirPath occs fs faults = inr prep ->
  default [] (returned prep !! p)
  = diagnosticOfAccepted <$> resolving_to workspaceDirPath p occs.
Proof.
  intros Hprep. rewrite (checked_prepareDiagnostics_lookup _ _ _ _ _ Hprep).
  by destruct (diagnosticOfAccepted <$> resolving_to workspaceDirPath p occs).
Qed.


End CheckedTranslator.

Section CheckedClaims.
Context `{PathApi}.
Variable workspaceDirPath : string.

(** C1, as amended: when [prepareDiagnostics] returns, on occurrences
    whose numbers are safe integers, the ranges of the entry of a path are,
    occurrence by occurrence, built from the positions
    (beginLine - 1, adjusted begin column) and (endLine - 1, endColumn),
    the adjusted begin column being beginColumn - 1 when beginColumn > 0
    and beginColumn otherwise: from the first to the second when the first
    is before the second, from the second to the first otherwise. *)
Theorem checked_prepareDiagnostics_range occs fs faults prep p :
  Forall safe occs ->
  Checked.prepareDiagnostics workspaceDirPath occs fs faults = inr prep ->
  range <$> default [] (returned prep !! p)
  = (fun o =>
       let startPos :=
         mkPosition (beginLine o - 1)
           (if decide (beginColumn o > 0) then beginColumn o - 1
            else beginColumn o) in
       let endPos := mkPosition (endLine o - 1) (endColumn o) in
       if Checked.isBefore startPos endPos then mkRange startPos endPos
       else mkRange endPos startPos)
    <$> resolving_to workspaceDirPath p occs.
Proof.
  intros _ Hprep.
  rewrite (checked_prepareDiagnostics_default _ _ _ _ _ p Hprep).
  rewrite <- list_fmap_compose. apply list_fmap_ext. intros _ o _.
  unfold compose, diagnosticOfAccepted, Checked.new_Range. cbn [range].
  destruct (Z.gtb_spec (beginColumn o) 0); case_decide; (done || lia).
Qed.

(** C5, as amended: [prepareDiagnostics] returns exactly when every
    occurrence is accepted by the constructors and no file-system call
    throws; the map it then returns has an entry for a path exactly when
    some occurrence resolves to that path, each entry lists one diagnostic
    per such occurrence, and the map holds as many diagnostics as there are
    occurrences. *)
Theorem checked_prepareDiagnostics_entries occs fs faults :
  ((exists prep,
      Checked.prepareDiagnostics workspaceDirPath occs fs faults = inr prep)
   <-> (existsSync fs (path_join workspaceDirPath ".deepsource") = true
        \/ mkdir_fault faults = None)
       /\ Forall accepted occs /\ write_fault faults = None)
  /\ forall prep,
       Checked.prepareDiagnostics workspaceDirPath occs fs faults = inr prep ->
       (forall p,
          is_Some (returned prep !! p) <->
          exists o, o ∈ occs /\ path_join workspaceDirPath (path o) = p)
       /\ (forall p,
             default [] (returned prep !! p)
             = diagnosticOfAccepted <$> resolving_to workspaceDirPath p occs)
       /\ total_diagnostics (returned prep) = length occs.
Proof.
  split.
  - split.
    + intros [prep Hprep].
      apply checked_prepareDiagnostics_inr in Hprep as (? & ? & ? & _). done.
    + intros (Hdir & Hacc & Hw).
      exists {| returned :=
                  fold_left addDiagnostic
                    ((fun o => set_path o (path_join workspaceDirPath (path o)))
                     <$> occs) ∅;
                occurrences_after :=
                  (fun o => set_path o (path_join workspaceDirPath (path o)))
                  <$> occs;
                fs_after :=
                  fs_after (prepareDiagnostics workspaceDirPath occs fs) |}.
      apply checked_prepareDiagnostics_inr. done.
  - intros prep Hprep. split; [|split].
    + intros p. rewrite (checked_prepareDiagnostics_lookup _ _ _ _ _ p Hprep).
      split.
      * intros Hsome.
        destruct (resolving_to workspaceDirPath p occs) as [|o l] eqn:Hr.
        { by destruct Hsome. }
        assert (o ∈ resolving_to workspaceDirPath p occs) as Hin
          by (rewrite Hr; left).
        apply list_elem_of_filter in Hin as [Hp Hin]. by exists o.
      * intros (o & Hin & Hp).
        destruct (resolving_to workspaceDirPath p occs) as [|o' l] eqn:Hr.
        -- destruct (proj1 (resolving_to_nil _ p occs) Hr o Hin Hp).
        -- by eexists.
    + intros p. apply (checked_prepareDiagnostics_default _ _ _ _ _ p Hprep).
    + apply checked_prepareDiagnostics_inr in Hprep as (_ & _ & _ & -> & _).
      rewrite total_diagnostics_fold_addDiagnostic, length_fmap.
      unfold total_diagnostics. rewrite map_fold_empty. lia.
Qed.




End CheckedClaims.

(** ** The claims as stated, at concrete inputs *)

(** C1, as stated, fails: for begin column 12 and end column 10 on one
    line the range is (4,10)-(4,11), not (4,11)-(4,10). *)
Lemma prepareDiagnostics_range_swapped :
  exists prep,
    @Checked.prepareDiagnostics posix "/repo" [endBeforeBegin] emptyDisk noFaults
    = inr prep
    /\ range <$> default [] (returned prep !! "/repo/a.py")
       = [mkRange (mkPosition 4 10) (mkPosition 4 11)]
    /\ range <$> default [] (returned prep !! "/repo/a.py")
       <> [mkRange (mkPosition (beginLine endBeforeBegin - 1)
                      (beginColumn endBeforeBegin - 1))
             (mkPosition (endLine endBeforeBegin - 1)
                (endColumn endBeforeBegin))].
Proof.
  eexists. split; [vm_compute; reflexivity|]. split; [vm_compute; reflexivity|].
  vm_compute. discriminate.
Qed.

(** C5, as stated, fails: an occurrence with an empty title makes the
    call throw, so the occurrences of the list contribute no diagnostic. *)
Lemma prepareDiagnostics_untitled_no_map :
  unusedImport ∈ [unusedImport; untitled]
  /\ @Checked.prepareDiagnostics posix "/repo" [unusedImport; untitled]
       emptyDisk noFaults
     = inl (TypeError "message must be set").
Proof. split; [left|vm_compute; reflexivity]. Qed.




(** ** The session with the host's checks *)

Section CheckedFetch.
Context `{PathApi}.
Variable workspaceDirPath : string.

Lemma checked_calculateDiagnostics_returns r faults st u n occs :
  fetch_returns r st u n occs ->
  CheckedSession.calculateDiagnostics workspaceDirPath r faults st
  = let st1 := log_call (GetAllIssuesInRepo n u) st in
    match Checked.prepareDiagnostics workspaceDirPath occs (fs st) faults with
    | inl e =>
        (inl e,
         set_fs (CheckedSession.fs_at_throw workspaceDirPath (fs st) faults) st1)
    | inr p =>
        (inr true,
         log_call (ShowInformationMessage successMessage)
           (set_diagnosticsInFile (returned p) (set_fs (fs_after p) st1)))
    end.
Proof.
  intros Hret. unfold CheckedSession.calculateDiagnostics.
  unfold mbind at 1, M_bind at 1.
  rewrite (fetchAnalysisReport_returns r st u n occs Hret). cbn [fst snd].
  unfold mbind at 1, M_bind at 1, get_state. cbn [fst snd fs log_call].
  by destruct (Checked.prepareDiagnostics _ occs (fs st) faults).
Qed.

(** X9: when the client returns occurrences, [calculateDiagnostics]
    resolves to [true], replaces the map by the translation of exactly
    those occurrences and shows the success notification if
    [prepareDiagnostics] returns; if it throws, the promise rejects with
    that error, the map is as before and no notification is shown. *)
Theorem checked_calculateDiagnostics_replaces_map r faults st u n occs :
  fetch_returns r st u n occs ->
  let c := CheckedSession.calculateDiagnostics workspaceDirPath r faults st in
  match Checked.prepareDiagnostics workspaceDirPath occs (fs st) faults with
  | inr p =>
      c.1 = inr true
      /\ diagnosticsInFile c.2 = returned p
      /\ (forall q,
            diagnosticsInFile c.2 !! q
            = entry_of
                (diagnosticOfAccepted <$> resolving_to workspaceDirPath q occs))
      /\ calls c.2
         = (calls st ++ [GetAllIssuesInRepo n u;
                         ShowInformationMessage successMessage])%list
  | inl e =>
      c.1 = inl e
      /\ diagnosticsInFile c.2 = diagnosticsInFile st
      /\ calls c.2 = (calls st ++ [GetAllIssuesInRepo n u])%list
  end.
Proof.
  intros Hret c. unfold c.
  rewrite (checked_calculateDiagnostics_returns r faults st u n occs Hret).
  cbv zeta.
  destruct (Checked.prepareDiagnostics _ occs (fs st) faults) as [e|p] eqn:Hp;
    cbn [fst snd diagnosticsInFile calls log_call set_diagnosticsInFile set_fs].
  - done.
  - repeat split.
    + intros q. apply (checked_prepareDiagnostics_lookup _ _ _ _ _ q Hp).
    + by rewrite <- app_assoc.
Qed.

Lemma checked_getAnalysisReport_handle r faults st d :
  deepSource st = Some d ->
  CheckedSession.getAnalysisReport workspaceDirPath r faults st
  = (tt, (CheckedSession.calculateDiagnostics workspaceDirPath r faults st).2).
Proof.
  intros Hd. unfold CheckedSession.getAnalysisReport.
  unfold mbind at 1, M_bind at 1, get_state. cbn [fst snd]. by rewrite Hd.
Qed.

Lemma checked_getAnalysisReport_entered r faults st pat :
  deepSource st = None -> cache st !! tokenKey = None ->
  inputBox r = Some pat -> pat <> "" ->
  CheckedSession.getAnalysisReport workspaceDirPath r faults st
  = let st1 :=
      set_cache (<[tokenKey := pat]> (cache st))
        (set_deepSource (Some (mkDeepSource pat)) (log_call ShowInputBox st)) in
    let c := CheckedSession.calculateDiagnostics workspaceDirPath r faults st1 in
    (tt,
     match c.1 with
     | inl _ => c.2
     | inr true => c.2
     | inr false =>
         log_call (ShowErrorMessage incorrectTokenMessage)
           (set_cache (delete tokenKey (cache c.2)) c.2)
     end).
Proof.
  intros Hd Hc Hr Hpat. unfold CheckedSession.getAnalysisReport.
  unfold mbind at 1, M_bind at 1, get_state. cbn [fst snd].
  rewrite Hd, Hc. unfold mbind at 1, M_bind at 1, host, modify. cbn [fst snd].
  rewrite Hr. apply String.eqb_neq in Hpat. rewrite Hpat.
  unfold mbind, M_bind, mret, M_ret, modify, host. cbn [fst snd].
  cbn [cache set_deepSource log_call].
  destruct (CheckedSession.calculateDiagnostics _ _ _ _).1 as [e|[|]]; done.
Qed.

(** X15: after a freshly entered token and a reply from the client, the
    token stays in the cache and its handle is kept; the map is replaced
    and the success notification shown if the translation returns, and if
    it throws the map is as before and the calls end with the request. *)
Theorem checked_getAnalysisReport_fresh_token r faults st pat u n occs :
  deepSource st = None -> cache st !! tokenKey = None ->
  inputBox r = Some pat -> pat <> "" ->
  userName st = Some u -> u <> "" -> repoName st = Some n -> n <> "" ->
  allIssuesInRepo r = Some occs ->
  let st' := (CheckedSession.getAnalysisReport workspaceDirPath r faults st).2 in
  deepSource st' = Some (mkDeepSource pat)
  /\ cache st' !! tokenKey = Some pat
  /\ match Checked.prepareDiagnostics workspaceDirPath occs (fs st) faults with
     | inr p =>
         diagnosticsInFile st' = returned p
         /\ calls st'
            = (calls st ++ [ShowInputBox; GetAllIssuesInRepo n u;
                            ShowInformationMessage successMessage])%list
     | inl _ =>
         diagnosticsInFile st' = diagnosticsInFile st
         /\ calls st'
            = (calls st ++ [ShowInputBox; GetAllIssuesInRepo n u])%list
     end.
Proof.
  intros Hd Hc Hr Hpat Hu Hune Hn Hnne Hocc. cbv zeta.
  rewrite (checked_getAnalysisReport_entered r faults st pat) by done.
  cbv zeta. cbn [snd].
  rewrite (checked_calculateDiagnostics_returns r faults _ u n occs);
    [|by repeat split; [eexists|..]].
  cbv zeta. cbn [fs set_cache set_deepSource log_call].
  destruct (Checked.prepareDiagnostics _ occs (fs st) faults) as [e|p];
    cbn [fst snd deepSource cache diagnosticsInFile fs calls log_call
         set_diagnosticsInFile set_fs set_cache set_deepSource];
    (split; [done|]; split; [apply lookup_insert_eq|]; split; [done|]);
    by rewrite <- !app_assoc.
Qed.

(** X19: focusing a file after a fetch shows the diagnostics of the
    fetched occurrences resolving to the file's path if the translation
    returned, and the entry of the previous map if it threw. *)
Theorem checked_fetch_then_focus r faults st u n occs editor :
  fetch_returns r st u n occs ->
  let st' := (CheckedSession.getAnalysisReport workspaceDirPath r faults st).2 in
  diagnosticCollection (onDidChangeActiveTextEditor (Some editor) st').2
  = match
      match Checked.prepareDiagnostics workspaceDirPath occs (fs st) faults with
      | inr _ =>
          entry_of
            (diagnosticOfAccepted <$>
               resolving_to workspaceDirPath (fsPath (uri (document editor)))
                 occs)
      | inl _ => diagnosticsInFile st !! fsPath (uri (document editor))
      end
    with
    | Some diags => {[ uri_text (uri (document editor)) := diags ]}
    | None => ∅
    end.
Proof.
  intros Hret. cbv zeta. rewrite onDidChangeActiveTextEditor_collection.
  pose proof Hret as ([d Hd] & _).
  rewrite (checked_getAnalysisReport_handle r faults st d Hd). cbn [snd].
  rewrite (checked_calculateDiagnostics_returns r faults st u n occs Hret).
  cbv zeta.
  destruct (Checked.prepareDiagnostics _ occs (fs st) faults) as [e|p] eqn:Hp;
    cbn [snd diagnosticsInFile log_call set_diagnosticsInFile set_fs]; [done|].
  by rewrite (checked_prepareDiagnostics_lookup _ _ _ _ _ _ Hp).
Qed.

End CheckedFetch.

(** ** Concrete runs with the host's checks *)

Lemma checked_prepareDiagnostics_range_witness :
  match @Checked.prepareDiagnostics posix "/repo" [endBeforeBegin] emptyDisk
          noFaults with
  | inr prep =>
      range <$> default [] (returned prep !! "/repo/a.py")
      = (fun o =>
           let startPos :=
             mkPosition (beginLine o - 1)
               (if decide (beginColumn o > 0) then beginColumn o - 1
                else beginColumn o) in
           let endPos := mkPosition (endLine o - 1) (endColumn o) in
           if Checked.isBefore startPos endPos then mkRange startPos endPos
           else mkRange endPos startPos)
        <$> @resolving_to posix "/repo" "/repo/a.py" [endBeforeBegin]
  | inl _ => False
  end.
Proof.
  destruct (@Checked.prepareDiagnostics posix "/repo" [endBeforeBegin]
              emptyDisk noFaults) as [e|prep] eqn:Hprep.
  - vm_compute in Hprep. discriminate.
  - apply (@checked_prepareDiagnostics_range posix "/repo" [endBeforeBegin]
             emptyDisk noFaults prep "/repo/a.py"); [|exact Hprep].
    repeat constructor; unfold safe_integer; cbn; lia.
Defined.

Lemma checked_prepareDiagnostics_entries_witness :
  match @Checked.prepareDiagnostics posix "/repo"
          [unusedImport; set_path unusedImport "b.py"] emptyDisk noFaults with
  | inr prep =>
      total_diagnostics (returned prep)
      = length [unusedImport; set_path unusedImport "b.py"]
  | inl _ => False
  end.
Proof.
  destruct (@Checked.prepareDiagnostics posix "/repo"
              [unusedImport; set_path unusedImport "b.py"] emptyDisk noFaults)
    as [e|prep] eqn:Hprep.
  - vm_compute in Hprep. discriminate.
  - apply (proj2 (@checked_prepareDiagnostics_entries posix "/repo"
                    [unusedImport; set_path unusedImport "b.py"] emptyDisk
                    noFaults) prep Hprep).
Defined.




Lemma checked_calculateDiagnostics_replaces_map_witness :
  (@CheckedSession.calculateDiagnostics posix "/repo"
     (mkReplies None (Some [negativeColumn])) noFaults fetchedSession).1
  = inl (IllegalArgument "character must be non-negative")
  /\ diagnosticsInFile
       (@CheckedSession.calculateDiagnostics posix "/repo"
          (mkReplies None (Some [negativeColumn])) noFaults fetchedSession).2
     = diagnosticsInFile fetchedSession
  /\ calls
       (@CheckedSession.calculateDiagnostics posix "/repo"
          (mkReplies None (Some [negativeColumn])) noFaults fetchedSession).2
     = (calls fetchedSession ++ [GetAllIssuesInRepo "app" "acme"])%list.
Proof.
  apply (@checked_calculateDiagnostics_replaces_map posix "/repo"
           (mkReplies None (Some [negativeColumn])) noFaults fetchedSession
           "acme" "app" [negativeColumn]).
  split; [by eexists|]. repeat split; done.
Defined.

Lemma checked_getAnalysisReport_fresh_token_witness :
  cache
    (@CheckedSession.getAnalysisReport posix "/repo" goodToken noFaults
       resolvedSession).2 !! tokenKey
  = Some "good-token".
Proof.
  assert (deepSource resolvedSession = None) as Hd by (vm_compute; reflexivity).
  assert (cache resolvedSession !! tokenKey = None) as Hc
    by (vm_compute; reflexivity).
  assert (userName resolvedSession = Some "acme") as Hu
    by (vm_compute; reflexivity).
  assert (repoName resolvedSession = Some "app") as Hn
    by (vm_compute; reflexivity).
  pose proof (@checked_getAnalysisReport_fresh_token posix "/repo" goodToken
                noFaults resolvedSession "good-token" "acme" "app"
                [unusedImport] Hd Hc eq_refl ltac:(discriminate) Hu
                ltac:(discriminate) Hn ltac:(discriminate) eq_refl) as Hw.
  cbv zeta in Hw. destruct Hw as (_ & Hw & _). exact Hw.
Defined.

Lemma checked_fetch_then_focus_witness :
  diagnosticCollection
    (onDidChangeActiveTextEditor (Some (editorAt "/repo/a.py"))
       (@CheckedSession.getAnalysisReport posix "/repo"
          (mkReplies None (Some [negativeColumn])) noFaults fetchedSession).2).2
  = {[ "file:///repo/a.py" := [diagnosticOf unusedImport] ]}.
Proof.
  rewrite (@checked_fetch_then_focus posix "/repo"
             (mkReplies None (Some [negativeColumn])) noFaults fetchedSession
             "acme" "app" [negativeColumn] (editorAt "/repo/a.py")).
  - vm_compute. reflexivity.
  - split; [by eexists|]. repeat split; done.
Defined.
